(** * Element: the scriptable Lua node  (src/engine/nodes/LuaNode.cpp)

    A shallow embedding of [LuaNode::Context] and [LuaNode] and the
    properties of the node's design that can be stated over it.

    - C++ control flow (early returns, [try]/[catch], [noexcept], member
      updates before an exception propagates) is modelled with a small
      state-and-completion monad [M].
    - The embedded interpreter (sol2 / Lua) and the JUCE buffer classes are
      libraries the node links against; they are the members of the class
      [Runtime].  Every general theorem is proved for every runtime.
    - [Demo] is one small concrete runtime, used where a statement has to be
      evaluated on a concrete script.

    [int] values are modelled by [Z]; signed overflow is undefined behaviour
    in C++ and no execution discussed here gets near it.  [double] values
    are only passed around (sample rate, parameter ranges), never computed
    with, and are carried as rationals. *)

From Stdlib Require Import ZArith List String Ascii Bool Lia DecimalString.
From Stdlib Require Import QArith_base.
Import ListNotations.
Local Open Scope string_scope.
Local Open Scope Z_scope.

Set Implicit Arguments.

(* ================================================================== *)
(** * Completions of C++ calls *)

Definition double : Type := Q.

(** How a call into the Lua runtime ends: it returns, or a Lua error is
    raised (sol2 turns it into a [sol::error], a [std::exception]).  Both
    carry the interpreter state the call leaves behind. *)
Inductive raised (S A : Type) : Type :=
| Returned (a : A) (s : S)
| Raised (what : string) (s : S).
Arguments Returned {S A} a s.
Arguments Raised {S A} what s.

(** How a C++ member function ends: normally, by a propagating
    [std::exception] (with the object state at that point), or by the end of
    the process ([std::terminate], null dereference). *)
Inductive completion (S A : Type) : Type :=
| Normal (a : A) (s : S)
| Throws (what : string) (s : S)
| Crash.
Arguments Normal {S A} a s.
Arguments Throws {S A} what s.
Arguments Crash {S A}.

Definition M (S A : Type) : Type := S -> completion S A.

Definition ret {S A} (a : A) : M S A := fun s => Normal a s.

Definition bind {S A B} (m : M S A) (k : A -> M S B) : M S B :=
  fun s =>
    match m s with
    | Normal a s' => k a s'
    | Throws what s' => Throws what s'
    | Crash => Crash
    end.

Definition get {S} : M S S := fun s => Normal s s.
Definition modify {S} (f : S -> S) : M S unit := fun s => Normal tt (f s).

(** [try { body } catch (const std::exception& e) { handler (e.what()) }] *)
Definition try_catch {S A} (body : M S A) (handler : string -> M S A) : M S A :=
  fun s =>
    match body s with
    | Normal a s' => Normal a s'
    | Throws what s' => handler what s'
    | Crash => Crash
    end.

(** A call into the runtime, seen from C++. *)
Definition lua {S A} (f : S -> raised S A) : M S A :=
  fun s =>
    match f s with
    | Returned a s' => Normal a s'
    | Raised what s' => Throws what s'
    end.

(** Run [m] on a part of the state (a member, or an object referred to). *)
Definition zoom {S T A} (proj : S -> T) (upd : T -> S -> S) (m : M T A) : M S A :=
  fun s =>
    match m (proj s) with
    | Normal a t' => Normal a (upd t' s)
    | Throws what t' => Throws what (upd t' s)
    | Crash => Crash
    end.

(** Run [m] on a local object that goes out of scope afterwards. *)
Definition with_local {S T A} (init : T) (m : M T A) : M S A :=
  fun s =>
    match m init with
    | Normal a _ => Normal a s
    | Throws what _ => Throws what s
    | Crash => Crash
    end.

(** A function declared [noexcept]: an exception that reaches its boundary
    calls [std::terminate]. *)
Definition noexcept {S A} (m : M S A) : M S A :=
  fun s =>
    match m s with
    | Normal a s' => Normal a s'
    | Throws _ _ => Crash
    | Crash => Crash
    end.

Declare Scope cpp_scope.
Delimit Scope cpp_scope with cpp.
Notation "x <- m ;; k" := (bind m (fun x => k))
  (at level 61, m at next level, right associativity) : cpp_scope.
Notation "m ;; k" := (bind m (fun _ => k))
  (at level 61, right associativity) : cpp_scope.
Local Open Scope cpp_scope.

(* ================================================================== *)
(** * JUCE: [Result] and the [String] operations the node uses

    The JUCE sources are not part of the repository's own files; these
    definitions give the operations the meaning the node relies on. *)

Module juce.

(** Modelled from the spec: [juce::Result], the typed success/failure
    result; a failure carries its message. *)
Inductive Result : Type :=
| ok
| fail (errorMessage : string).

Definition failed (r : Result) : bool :=
  match r with ok => false | fail _ => true end.

Definition wasOk (r : Result) : bool := negb (failed r).

Definition isEmpty (s : string) : bool :=
  match s with EmptyString => true | String _ _ => false end.

Definition isWhitespace (c : ascii) : bool :=
  let n := nat_of_ascii c in
  (Nat.eqb n 32 || (Nat.leb 9 n && Nat.leb n 13))%bool.

Fixpoint trimStart (s : string) : string :=
  match s with
  | EmptyString => EmptyString
  | String c s' => if isWhitespace c then trimStart s' else s
  end.

Fixpoint trimEnd (s : string) : string :=
  match s with
  | EmptyString => EmptyString
  | String c s' =>
      match trimEnd s' with
      | EmptyString => if isWhitespace c then EmptyString else String c EmptyString
      | rest => String c rest
      end
  end.

(** Modelled from the spec: [String::trim] ("trimming"), leading and
    trailing whitespace removed. *)
Definition trim (s : string) : string := trimEnd (trimStart s).

Definition toLower (c : ascii) : ascii :=
  let n := nat_of_ascii c in
  if (Nat.leb 65 n && Nat.leb n 90)%bool then ascii_of_nat (n + 32) else c.

Fixpoint map_chars (f : ascii -> ascii) (s : string) : string :=
  match s with
  | EmptyString => EmptyString
  | String c s' => String (f c) (map_chars f s')
  end.

(** Modelled from the spec: [String::toLowerCase] ("lower-casing"), on
    the ASCII letters. *)
Definition toLowerCase (s : string) : string := map_chars toLower s.

(** Modelled from the spec: [String::replace (" ", "_")] ("replacing
    spaces with underscores"), the one replacement the node makes. *)
Definition replace_space_underscore (s : string) : string :=
  map_chars (fun c => if Ascii.eqb c " "%char then "_"%char else c) s.

(** Modelled from the spec: [String::operator<< (int)], which gives the
    symbols [in_1], [in_2], ...: the decimal digits are appended. *)
Definition append_int (s : string) (n : Z) : string :=
  s ++ NilZero.string_of_int (Z.to_int n).

Definition jmax (a b : Z) : Z := Z.max a b.

End juce.

Export juce.

(* ================================================================== *)
(** * kv: port descriptors

    [kv::PortType] and [kv::PortList] come from a library outside the
    repository's own files. *)

Module kv.

(** Modelled from the spec: the port types [Audio], [Midi] and [Control]
    of the data model. *)
Inductive PortType : Type := Audio | Midi | Control.

Definition PortType_eqb (a b : PortType) : bool :=
  match a, b with
  | Audio, Audio | Midi, Midi | Control, Control => true
  | _, _ => false
  end.

(** Modelled from the spec: a Port is
    [{ type, index, channel, symbol, name, isInput }]. *)
Record Port : Type := mkPort {
  type : PortType;
  index : Z;
  channel : Z;
  symbol : string;
  name : string;
  isInput : bool
}.

(** Modelled from the spec: a PortList is an ordered sequence of Port. *)
Definition PortList : Type := list Port.

(** Modelled from the spec: [PortList::add (type, index, channel, symbol,
    name, isInput)] appends one descriptor. *)
Definition add (ports : PortList) (ty : PortType) (idx chan : Z)
           (sym nm : string) (input : bool) : PortList :=
  (ports ++ [mkPort ty idx chan sym nm input])%list.

(** Modelled from the spec: [PortList::size()], the number of ports. *)
Definition size (ports : PortList) : Z := Z.of_nat (List.length ports).

Definition in_group (ty : PortType) (input : bool) (p : Port) : bool :=
  (PortType_eqb (type p) ty && Bool.eqb (isInput p) input)%bool.

(** Modelled from the spec: [PortList::size (type, isInput)], the number
    of ports of one type and direction (the "audioInPortCount" of the
    validation harness). *)
Definition size_of (ports : PortList) (ty : PortType) (input : bool) : Z :=
  Z.of_nat (List.length (filter (in_group ty input) ports)).

(** Modelled from the spec: [PortList::clearQuick()] empties the list. *)
Definition clearQuick (ports : PortList) : PortList := [].

End kv.

(* ================================================================== *)
(** * The runtime the node is linked against *)

(** A key of a table lookup: [t["audio_ins"]] or [t[1]]. *)
Inductive key : Type :=
| KStr (s : string)
| KInt (i : Z).

(** sol2 and the JUCE buffer classes.  [object] is a reference to a Lua
    value (a [sol::function], a [sol::table], the result of a call).
    A call of a script function returns or raises an error, and leaves an
    interpreter state; a script that never returns has no completion here.
    Table reads are made on plain tables returned by the declaration
    functions: they do not run script code, so they read the interpreter
    state without changing it; [inl what] is a raised error. *)
Class Runtime : Type := {
  lua_State : Type;
  object : Type;
  AudioSampleBuffer : Type;
  MidiPipe : Type;
  MemoryData : Type;

  (** [sol::state()] *)
  new_state : lua_State;
  (** a default-constructed [sol::function] *)
  lua_nil : object;
  (** [explicit operator bool]: the reference holds something, not nil *)
  valid : object -> bool;
  (** [state.open_libraries (sol::lib::base, sol::lib::string)] *)
  open_libraries : lua_State -> raised lua_State unit;
  (** [Lua::registerEngine (state)] *)
  registerEngine : lua_State -> raised lua_State unit;
  (** [state.script (text)]: the validity of the result, or a raised error *)
  sol_script : string -> lua_State -> raised lua_State bool;
  (** [state [name]] *)
  sol_global : string -> lua_State -> object;
  (** [f()] *)
  call : object -> lua_State -> raised lua_State object;
  (** [fn (rate, block)] *)
  call_prepare : object -> double -> Z -> lua_State -> raised lua_State unit;
  (** [f (audio, midi)] with both passed by reference *)
  call_render : object -> AudioSampleBuffer -> MidiPipe -> lua_State ->
                raised lua_State (AudioSampleBuffer * MidiPipe);
  (** [state.collect_garbage()] *)
  collect_garbage : lua_State -> lua_State;
  (** [t.size()] *)
  table_size : object -> lua_State -> string + nat;
  (** [t[k1]...[kn].get_or (otherwise)] at the types the node reads *)
  get_or_int : object -> list key -> Z -> lua_State -> string + Z;
  get_or_string : object -> list key -> string -> lua_State -> string + string;
  get_or_number : object -> list key -> double -> lua_State -> string + double;

  (** [AudioSampleBuffer (numChannels, numSamples)] *)
  newAudioSampleBuffer : Z -> Z -> AudioSampleBuffer;
  (** [MidiPipe (midiBufs, midiIdx)], every buffer new and empty *)
  newMidiPipe : list Z -> MidiPipe;
  (** [MidiPipe()] *)
  emptyMidiPipe : MidiPipe;

  (** [ValueTree::readFromData (data, size)]: [None] is the invalid tree,
      otherwise the properties of the tree *)
  readFromData : MemoryData -> option (list (string * string))
}.

(* ================================================================== *)
(** * [struct LuaNode::Context] *)

Module Context.
Section WithRuntime.

Context {RT : Runtime}.

(** The data members.  [renderstdf] is a [std::function]: [None] is the
    empty one, [Some f] wraps the [sol::function] [f]. *)
Record t : Type := mk {
  state : lua_State;
  renderf : object;
  renderstdf : option object;
  name : string;
  loaded : bool
}.

(** [explicit Context () { }] with the default member initialisers. *)
Definition new : t :=
  {| state := new_state; renderf := lua_nil; renderstdf := None;
     name := ""; loaded := false |}.

Definition set_state (st : lua_State) (c : t) : t :=
  mk st (renderf c) (renderstdf c) (name c) (loaded c).

(** A runtime call on the member [state]. *)
Definition in_state {A} (f : lua_State -> raised lua_State A) : M t A :=
  zoom state set_state (lua f).

Definition getName (c : t) : string := name c.

Definition ready (c : t) : bool := loaded c.

(** [renderf = state ["node_render"]] takes the reference whatever the
    global holds, nil included: [sol::function] is sol2's unchecked
    function type, and [validate] below tests [ctx->renderf] before it
    calls it. *)
Definition load (script : string) : M t Result :=
  c <- get ;;
  if ready c then ret (fail "Script already loaded")
  else
    (try_catch
       (in_state open_libraries ;;
        in_state registerEngine ;;
        res <- in_state (sol_script script) ;;
        if (res : bool) then
          (* renderf = state ["node_render"]; renderstdf = renderf; loaded = true; *)
          modify (fun c => let f := sol_global "node_render" (state c) in
                           mk (state c) f (Some f) (name c) true)
        else ret tt)
       (fun what =>
          (* errorMsg = e.what(); loaded = false; renderstdf = nullptr; *)
          modify (fun c => mk (state c) (renderf c) None (name c) false)) ;;
     c <- get ;;
     ret (if loaded c then ok else fail "Couldn't load Lua script")).

Definition prepare (rate : double) (block : Z) : M t unit :=
  c <- get ;;
  if negb (ready c) then ret tt
  else
    (let fn := sol_global "node_prepare" (state c) in
     (if valid fn then in_state (call_prepare fn rate block) else ret tt) ;;
     modify (fun c => set_state (collect_garbage (state c)) c)).

Definition release : M t unit :=
  c <- get ;;
  if negb (ready c) then ret tt
  else
    (let fn := sol_global "node_release" (state c) in
     (if valid fn then (_ <- in_state (call fn) ;; ret tt) else ret tt) ;;
     modify (fun c => set_state (collect_garbage (state c)) c)).

(** [render] is [noexcept] and calls [renderstdf] with no guard.  The two
    buffers are passed by reference; the model returns them. *)
Definition render (audio : AudioSampleBuffer) (midi : MidiPipe)
  : M t (AudioSampleBuffer * MidiPipe) :=
  noexcept
    (c <- get ;;
     if loaded c then
       match renderstdf c with
       | Some f => in_state (call_render f audio midi)
       | None => fun c => Throws "bad_function_call" c
       end
     else ret (audio, midi)).

(** ** Port derivation.  The state is the Context and the [PortList&]. *)

Definition on_context {A} (m : M t A) : M (t * kv.PortList) A :=
  zoom fst (fun c s => (c, snd s)) m.

Definition on_ports (f : kv.PortList -> kv.PortList) : M (t * kv.PortList) unit :=
  modify (fun s => (fst s, f (snd s))).

(** One of the four loops of [addIOPorts]:
    [for (int i = 0; i < count; ++i)
       { slug << (i + 1); name << (i + 1);
         ports.add (type, index++, channel++, slug, name, isInput); }]
    with [n] the iterations left, [Z.to_nat count] at the start.  The
    result is the value of [index] after the loop and the list. *)
Fixpoint io_loop (n : nat) (ty : kv.PortType) (input : bool)
         (slug name : string) (i index channel : Z) (ports : kv.PortList)
  : Z * kv.PortList :=
  match n with
  | O => (index, ports)
  | S n' =>
      io_loop n' ty input slug name (i + 1) (index + 1) (channel + 1)
              (kv.add ports ty index channel
                      (append_int slug (i + 1)) (append_int name (i + 1)) input)
  end.

(** The [try] block of [addIOPorts]: the four counts start at 0 and are
    assigned one after the other; a raised error leaves the block with
    the counts assigned so far. *)
Definition read_io_counts (t : object) (st : lua_State) : Z * Z * Z * Z :=
  match table_size t st with
  | inl _ => (0, 0, 0, 0)
  | inr sz =>
      let at_ (field : string) : list key :=
        if Nat.eqb sz 0 then [KStr field] else [KInt 1; KStr field] in
      match get_or_int t (at_ "audio_ins") 0 st with
      | inl _ => (0, 0, 0, 0)
      | inr audioIns =>
          match get_or_int t (at_ "audio_outs") 0 st with
          | inl _ => (audioIns, 0, 0, 0)
          | inr audioOuts =>
              match get_or_int t (at_ "midi_ins") 0 st with
              | inl _ => (audioIns, audioOuts, 0, 0)
              | inr midiIns =>
                  match get_or_int t (at_ "midi_outs") 0 st with
                  | inl _ => (audioIns, audioOuts, midiIns, 0)
                  | inr midiOuts => (audioIns, audioOuts, midiIns, midiOuts)
                  end
              end
          end
      end
  end.

(** The four loops, [index] running through all of them and [channel]
    set back to 0 before each. *)
Definition add_io_ports (audioIns audioOuts midiIns midiOuts : Z)
           (ports : kv.PortList) : kv.PortList :=
  let index := 0 in
  let '(index, ports) :=
    io_loop (Z.to_nat audioIns) kv.Audio true "in_" "In " 0 index 0 ports in
  let '(index, ports) :=
    io_loop (Z.to_nat audioOuts) kv.Audio false "out_" "Out " 0 index 0 ports in
  let '(index, ports) :=
    io_loop (Z.to_nat midiIns) kv.Midi true "midi_in_" "MIDI In " 0 index 0 ports in
  let '(index, ports) :=
    io_loop (Z.to_nat midiOuts) kv.Midi false "midi_out_" "MIDI Out " 0 index 0 ports in
  ports.

(** [sol::table t = f();] stands before the [try]: an error raised by
    [node_io_ports] leaves [addIOPorts]. *)
Definition addIOPorts : M (t * kv.PortList) unit :=
  s <- get ;;
  let f := sol_global "node_io_ports" (state (fst s)) in
  if valid f then
    (t <- on_context (in_state (call f)) ;;
     s <- get ;;
     let '(audioIns, audioOuts, midiIns, midiOuts) :=
       read_io_counts t (state (fst s)) in
     on_ports (add_io_ports audioIns audioOuts midiIns midiOuts))
  else ret tt.

(** What one iteration of the loop of [addParameters] reads of
    [params[i + 1]] before it adds the port: the name, the symbol and the
    direction.  [type], [min], [max] and [default] are read and not used. *)
Definition read_param (params : object) (i : Z) (st : lua_State)
  : string + (string * string * bool) :=
  let field (k : string) : list key := [KInt (i + 1); KStr k] in
  match get_or_string params (field "name") "Param" st with
  | inl what => inl what
  | inr name =>
      let sym := replace_space_underscore (toLowerCase (trim name)) in
      match get_or_string params (field "type") "float" st with
      | inl what => inl what
      | inr _ =>
          match get_or_string params (field "flow") "input" st with
          | inl what => inl what
          | inr flow =>
              let isInput := String.eqb flow "input" in
              match get_or_number params (field "min") (0 # 1) st with
              | inl what => inl what
              | inr _ =>
                  match get_or_number params (field "max") (1 # 1) st with
                  | inl what => inl what
                  | inr _ =>
                      match get_or_number params (field "default") (1 # 1) st with
                      | inl what => inl what
                      | inr _ => inr (name, sym, isInput)
                      end
                  end
              end
          end
      end
  end.

(** [for (int i = 0; i < params.size(); ++i)], [n] the iterations left.
    A raised error ends the loop (it is caught right after it) with the
    ports added so far. *)
Fixpoint param_loop (n : nat) (params : object) (st : lua_State)
         (i index inChan outChan : Z) (ports : kv.PortList) : kv.PortList :=
  match n with
  | O => ports
  | S n' =>
      match read_param params i st with
      | inl _ => ports
      | inr (name, sym, isInput) =>
          let channel := if isInput then inChan else outChan in
          param_loop n' params st (i + 1) (index + 1)
                     (if isInput then inChan + 1 else inChan)
                     (if isInput then outChan else outChan + 1)
                     (kv.add ports kv.Control index channel sym name isInput)
      end
  end.

(** The whole body is inside [try { } catch (const std::exception&) { }]. *)
Definition addParameters : M (t * kv.PortList) unit :=
  s <- get ;;
  let f := sol_global "node_params" (state (fst s)) in
  if valid f then
    (let index := kv.size (snd s) in
     try_catch
       (params <- on_context (in_state (call f)) ;;
        s <- get ;;
        match table_size params (state (fst s)) with
        | inl what => fun s => Throws what s
        | inr sz =>
            on_ports (param_loop sz params (state (fst s)) 0 index 0 0)
        end)
       (fun _ => ret tt))
  else ret tt.

Definition createPorts : M (t * kv.PortList) unit :=
  s <- get ;;
  if negb (ready (fst s)) then ret tt
  else (addIOPorts ;; addParameters).

(** [kv::PortList ports; ctx->createPorts (ports);] on a local list. *)
Definition createPorts_local : M t kv.PortList :=
  fun c =>
    match createPorts (c, []) with
    | Normal _ (c', ports) => Normal ports c'
    | Throws what (c', _) => Throws what c'
    | Crash => Crash
    end.

(** [midiIdx] after
    [while (midiBufs.size() < nmidi)
       { midiIdx.add (midiBufs.size()); midiBufs.add (new MidiBuffer()); }] *)
Definition midi_indexes (nmidi : Z) : list Z :=
  map Z.of_nat (seq 0 (Z.to_nat nmidi)).

(** [static Result validate (const String& script)].  The Context is a
    local object; [S] is whatever state the caller has. *)
Definition validate {S} (script : string) : M S Result :=
  if isEmpty script then ret (fail "script contains no code")
  else
    with_local new
      (result <- load script ;;
       if failed result then ret result
       else
         (c <- get ;;
          if negb (ready c) then ret (fail "could not parse script")
          else
            try_catch
              (let block := 1024 in
               let rate : double := 44100 # 1 in
               ports <- createPorts_local ;;
               let nchans := jmax (kv.size_of ports kv.Audio true)
                                  (kv.size_of ports kv.Audio false) in
               let nmidi := jmax (kv.size_of ports kv.Midi true)
                                 (kv.size_of ports kv.Midi false) in
               let audio := newAudioSampleBuffer (jmax 1 nchans) block in
               let midiIdx := midi_indexes nmidi in
               let midi := match midiIdx with
                           | [] => emptyMidiPipe
                           | _ => newMidiPipe midiIdx
                           end in
               prepare rate block ;;
               c <- get ;;
               (* use renderf directly so it can throw an exception *)
               (if valid (renderf c)
                then (_ <- in_state (call_render (renderf c) audio midi) ;; ret tt)
                else ret tt) ;;
               release ;;
               ret ok)
              (fun what => ret (fail what)))).

End WithRuntime.
End Context.

(* ================================================================== *)
(** * The built-in script *)

(** The double quote character. *)
Definition dq : string := String (ascii_of_nat 34) EmptyString.

(** [static const String defaultScript], character for character. *)
Definition defaultScript : string :=
  "
--- Lua Node template
--
-- This script came with Element and is in the public domain.
--
-- The code contained provides stereo audio in and out with one MIDI input
-- and one MIDI output.  It clears the audio buffer and logs midi messages
-- to the console.
--
-- The Lua filter node is highly experimental and the API is subject to change
-- without warning.  Please bear with us as we move toward a stable version. If
-- you are a developer and want to help out, see https://github.com/kushview/element

function node_io_ports()
    return {
        audio_ins   = 2,
        audio_outs  = 2,
        midi_ins    = 1,
        midi_outs   = 1
    }
end

-- Return parameters
function node_params()
    return {
        {
            name    = " ++ dq ++
  "Volume" ++ dq ++
  ",
            label   = " ++ dq ++
  "dB" ++ dq ++
  ",
            type    = " ++ dq ++
  "float" ++ dq ++
  ",
            flow    = " ++ dq ++
  "input" ++ dq ++
  ",
            min     = -90.0,
            max     = 24.0,
            default = 0.0
        }
    }
end

-- prepare for rendering
function node_prepare (rate, block)
    print (string.format ('prepare rate = %d block = %d', rate, block))
end

-- render audio and midi
function node_render (audio, midi)
    audio:clear()
    local mb = midi:get_read_buffer (0)
    for msg, _ in mb:iter() do
        print (msg)
    end
    mb:clear()
end

--- Release node resources
--  free any allocated resources in this callback
function node_release()
end

".

(* ================================================================== *)
(** * [class LuaNode] *)

Module LuaNode.
Section WithRuntime.

Context {RT : Runtime}.

(** The data members the functions below use.  [context] is a
    [std::unique_ptr<Context>], [None] the null pointer.
    [changeMessages] counts the calls of [sendChangeMessage()] made so
    far (the node is a [ChangeBroadcaster]).  The [CriticalSection lock]
    has no member here: each function of this sequential model runs as
    one step. *)
Record t : Type := mk {
  context : option Context.t;
  ports : kv.PortList;
  script : string;
  draftScript : string;
  prepared : bool;
  sampleRate : double;
  blockSize : Z;
  changeMessages : nat
}.

Definition set_context (c : option Context.t) (n : t) : t :=
  mk c (ports n) (script n) (draftScript n) (prepared n)
     (sampleRate n) (blockSize n) (changeMessages n).

Definition set_ports (ps : kv.PortList) (n : t) : t :=
  mk (context n) ps (script n) (draftScript n) (prepared n)
     (sampleRate n) (blockSize n) (changeMessages n).

Definition set_scripts (s : string) (n : t) : t :=
  mk (context n) (ports n) s s (prepared n)
     (sampleRate n) (blockSize n) (changeMessages n).

Definition set_prepared (b : bool) (n : t) : t :=
  mk (context n) (ports n) (script n) (draftScript n) b
     (sampleRate n) (blockSize n) (changeMessages n).

Definition set_rate_block (rate : double) (block : Z) (n : t) : t :=
  mk (context n) (ports n) (script n) (draftScript n) (prepared n)
     rate block (changeMessages n).

Definition sendChangeMessage : M t unit :=
  modify (fun n => mk (context n) (ports n) (script n) (draftScript n)
                      (prepared n) (sampleRate n) (blockSize n)
                      (S (changeMessages n))).

(** [ptr->f (...)] through a [unique_ptr]; the null pointer has nothing
    to call. *)
Definition deref {S A} (ptr : S -> option Context.t)
           (upd : option Context.t -> S -> S) (m : M Context.t A) : M S A :=
  fun s =>
    match ptr s with
    | None => Crash
    | Some c =>
        match m c with
        | Normal a c' => Normal a (upd (Some c') s)
        | Throws what c' => Throws what (upd (Some c') s)
        | Crash => Crash
        end
    end.

(** [context->f (...)] *)
Definition on_active {A} (m : M Context.t A) : M t A :=
  deref context set_context m.

Definition createPorts : M t unit :=
  n <- get ;;
  match context n with
  | None => ret tt
  | Some c =>
      (* ports.clearQuick(); context->createPorts (ports); *)
      fun n =>
        match Context.createPorts (c, kv.clearQuick (ports n)) with
        | Normal _ (c', ps) => Normal tt (set_ports ps (set_context (Some c') n))
        | Throws what (c', ps) => Throws what (set_ports ps (set_context (Some c') n))
        | Crash => Crash
        end
  end.

(** The second half of [loadScript] has the local [newContext] next to
    the node: the state is the pair of them. *)
Definition on_node (f : t -> t) : M (t * option Context.t) unit :=
  modify (fun s => (f (fst s), snd s)).

Definition on_newContext {A} (m : M Context.t A) : M (t * option Context.t) A :=
  deref snd (fun c s => (fst s, c)) m.

(** [context.swap (newContext)] *)
Definition swap : M (t * option Context.t) unit :=
  modify (fun s => (set_context (snd s) (fst s), context (fst s))).

Definition with_newContext {A} (init : option Context.t)
           (m : M (t * option Context.t) A) : M t A :=
  fun n =>
    match m (n, init) with
    | Normal a (n', _) => Normal a n'
    | Throws what (n', _) => Throws what n'
    | Crash => Crash
    end.

Definition loadScript (newScript : string) : M t Result :=
  result <- Context.validate newScript ;;
  if failed result then ret result
  else
    with_newContext (Some Context.new)
      (result <- on_newContext (Context.load newScript) ;;
       (if wasOk result then
          (on_node (set_scripts newScript) ;;
           s <- get ;;
           (if prepared (fst s)
            then on_newContext
                   (Context.prepare (sampleRate (fst s)) (blockSize (fst s)))
            else ret tt) ;;
           (* ScopedLock sl (lock); *)
           swap)
        else ret tt) ;;
       s <- get ;;
       (match snd s with
        | Some _ =>
            on_newContext Context.release ;;
            modify (fun s => (fst s, None))
        | None => ret tt
        end) ;;
       ret result).

(** [LuaNode::LuaNode() noexcept], from the members as the class
    declaration initialises them (the declaration is in LuaNode.h). *)
Definition construct (members : t) : completion t unit :=
  noexcept
    (modify (set_context (Some Context.new)) ;;
     _ <- loadScript defaultScript ;;
     ret tt)
    members.

Definition prepareToRender (rate : double) (block : Z) : M t unit :=
  n <- get ;;
  if prepared n then ret tt
  else
    (modify (set_rate_block rate block) ;;
     n <- get ;;
     on_active (Context.prepare (sampleRate n) (blockSize n)) ;;
     modify (set_prepared true)).

Definition releaseResources : M t unit :=
  n <- get ;;
  if negb (prepared n) then ret tt
  else
    (modify (set_prepared false) ;;
     on_active Context.release).

Definition render (audio : AudioSampleBuffer) (midi : MidiPipe)
  : M t (AudioSampleBuffer * MidiPipe) :=
  (* ScopedLock sl (lock); *)
  on_active (Context.render audio midi).

(** [state [key].toString()]: the empty string when the property is
    not there. *)
Fixpoint property (props : list (string * string)) (k : string) : string :=
  match props with
  | [] => ""
  | (k', v) :: rest => if String.eqb k' k then v else property rest k
  end.

Definition setState (data : MemoryData) : M t unit :=
  match readFromData data with
  | Some state =>
      _ <- loadScript (property state "script") ;;
      sendChangeMessage
  | None => ret tt
  end.

(** The tree [getState] writes to the block. *)
Definition getState (n : t) : list (string * string) :=
  [("script", script n); ("draft", draftScript n)].

End WithRuntime.
End LuaNode.

(* ================================================================== *)
(** * [LuaNode::loadScript], statement by statement

    [render] runs on the audio thread while [loadScript] runs on another
    one.  [render] holds the [lock] for the whole call and [loadScript]
    takes it for the swap: a call of [render] falls between two statements
    of [loadScript], never inside the swap.  The other statements work on
    the local [newContext] and on the members [script] and [draftScript],
    which [render] does not touch. *)

Module HotSwap.
Section WithRuntime.

Context {RT : Runtime}.

(** The statement [loadScript] is about to run, with the local [result]
    once it is set. *)
Inductive point : Type :=
| Validate                    (* auto result = Context::validate (newScript); *)
| Load                        (* newContext = make_unique; result = load (newScript); *)
| Commit (result : Result)    (* script = draftScript = newScript; *)
| Prepare (result : Result)   (* if (prepared) newContext->prepare (...); *)
| Swap (result : Result)      (* ScopedLock sl (lock); context.swap (newContext); *)
| Release (result : Result)   (* if (newContext != nullptr) { release; reset } *)
| Return (result : Result).   (* return result; *)

(** One statement: the state is the node and the local [newContext], the
    value is the point reached. *)
Definition step (newScript : string) (p : point)
  : M (LuaNode.t * option Context.t) point :=
  match p with
  | Validate =>
      result <- Context.validate newScript ;;
      ret (if failed result then Return result else Load)
  | Load =>
      modify (fun s => (fst s, Some Context.new)) ;;
      result <- LuaNode.on_newContext (Context.load newScript) ;;
      ret (if wasOk result then Commit result else Release result)
  | Commit result =>
      LuaNode.on_node (LuaNode.set_scripts newScript) ;;
      ret (Prepare result)
  | Prepare result =>
      s <- get ;;
      (if LuaNode.prepared (fst s)
       then LuaNode.on_newContext
              (Context.prepare (LuaNode.sampleRate (fst s))
                               (LuaNode.blockSize (fst s)))
       else ret tt) ;;
      ret (Swap result)
  | Swap result =>
      LuaNode.swap ;;
      ret (Release result)
  | Release result =>
      s <- get ;;
      (match snd s with
       | Some _ =>
           LuaNode.on_newContext Context.release ;;
           modify (fun s => (fst s, None))
       | None => ret tt
       end) ;;
      ret (Return result)
  | Return result => ret (Return result)
  end.

(** The statements from [p] on, one after the other, up to the [return];
    [fuel] bounds their number (there are six). *)
Fixpoint run (fuel : nat) (newScript : string) (p : point)
  : M (LuaNode.t * option Context.t) Result :=
  match p with
  | Return result => ret result
  | _ =>
      match fuel with
      | O => fun _ => Crash
      | S fuel' => p' <- step newScript p ;; run fuel' newScript p'
      end
  end.

(** [loadScript] with no call of [render] in between. *)
Definition loadScript (newScript : string) : M LuaNode.t Result :=
  LuaNode.with_newContext None (run 6 newScript Validate).


End WithRuntime.
End HotSwap.

(* ================================================================== *)
(** * A small concrete runtime *)

(** [Demo] interprets a handful of Lua scripts, each written out below
    together with what it does when Lua runs it.  Any other text is
    rejected as a syntax error.  Values are immutable trees; a function
    value is the name of the global it was read from. *)
Module Demo.

#[local] Set Warnings "-register-all".

Inductive value : Type :=
| VNil
| VInt (z : Z)
| VNum (q : Q)
| VStr (s : string)
| VTable (items : list value) (fields : list (string * value))
| VFunction (name : string).

Inductive args : Type :=
| NoArgs
| PrepareArgs (rate : double) (block : Z)
| RenderArgs.

(** What a call of a script function does: given the value of the
    script's local variable [n] and the arguments, it raises or returns,
    and leaves a value in [n]. *)
Definition lua_function : Type := Z -> args -> (string + value) * Z.

Record interp : Type := mkInterp {
  globals : list (string * lua_function);
  local_n : Z
}.

Fixpoint lookup {A} (k : string) (l : list (string * A)) : option A :=
  match l with
  | [] => None
  | (k', v) :: rest => if String.eqb k' k then Some v else lookup k rest
  end.

(** ** The scripts *)

Definition returns (v : value) : lua_function := fun n _ => (inr v, n).
Definition raises (what : string) : lua_function := fun n _ => (inl what, n).

(** The built-in script: the two tables it returns and its five
    functions. *)
Definition default_io_ports : value :=
  VTable [] [("audio_ins", VInt 2); ("audio_outs", VInt 2);
             ("midi_ins", VInt 1); ("midi_outs", VInt 1)].

Definition default_params : value :=
  VTable [VTable [] [("name", VStr "Volume"); ("label", VStr "dB");
                     ("type", VStr "float"); ("flow", VStr "input");
                     ("min", VNum (-90 # 1)); ("max", VNum (24 # 1));
                     ("default", VNum (0 # 1))]] [].

Definition default_globals : list (string * lua_function) :=
  [ ("node_io_ports", returns default_io_ports);
    ("node_params", returns default_params);
    ("node_prepare", returns VNil);
    ("node_render", returns VNil);
    ("node_release", returns VNil) ].

(** A chunk that defines no function at all. *)
Definition no_functions : string := "local x = 1".

(** [node_render] fails whenever it is called. *)
Definition render_raises : string :=
  "function node_render (audio, midi) error ('boom') end".

(** [node_io_ports] fails whenever it is called. *)
Definition io_ports_raises : string :=
  "function node_io_ports() error ('no ports') end
function node_render (audio, midi) end".

(** Every call of [node_io_ports] declares one audio input more than
    the call before. *)
Definition counting_ports : string :=
  "local n = 0
function node_io_ports() n = n + 1 return { audio_ins = n } end
function node_render (audio, midi) end".

Definition scripts : list (string * list (string * lua_function)) :=
  [ (defaultScript, default_globals);
    (no_functions, []);
    (render_raises, [("node_render", raises "boom")]);
    (io_ports_raises, [("node_io_ports", raises "no ports");
                       ("node_render", returns VNil)]);
    (counting_ports,
     [("node_io_ports",
       fun n _ => (inr (VTable [] [("audio_ins", VInt (n + 1))]), n + 1));
      ("node_render", returns VNil)]) ].

(** ** The interpreter *)

Definition run_script (text : string) (st : interp) : raised interp bool :=
  match lookup text scripts with
  | Some defs => Returned true (mkInterp (defs ++ globals st)%list (local_n st))
  | None => Raised "syntax error" st
  end.

Definition global (name : string) (st : interp) : value :=
  match lookup name (globals st) with
  | Some _ => VFunction name
  | None => VNil
  end.

Definition is_valid (v : value) : bool :=
  match v with VNil => false | _ => true end.

Definition call_with (a : args) (f : value) (st : interp) : raised interp value :=
  match f with
  | VFunction name =>
      match lookup name (globals st) with
      | Some body =>
          match body (local_n st) a with
          | (inr v, n') => Returned v (mkInterp (globals st) n')
          | (inl what, n') => Raised what (mkInterp (globals st) n')
          end
      | None => Raised "attempt to call a nil value" st
      end
  | _ => Raised "attempt to call a value that is not a function" st
  end.

Definition discard {A B} (b : B) (r : raised interp A) : raised interp B :=
  match r with
  | Returned _ s => Returned b s
  | Raised what s => Raised what s
  end.

(** [v[k]]; [None] when [v] is not a table. *)
Definition index_value (v : value) (k : key) : option value :=
  match v, k with
  | VTable items _, KInt i =>
      Some (if 1 <=? i then nth (Z.to_nat (i - 1)) items VNil else VNil)
  | VTable _ fields, KStr s =>
      Some (match lookup s fields with Some x => x | None => VNil end)
  | _, _ => None
  end.

Fixpoint traverse (v : value) (ks : list key) : option value :=
  match ks with
  | [] => Some v
  | k :: ks' =>
      match index_value v k with
      | Some v' => traverse v' ks'
      | None => None
      end
  end.

(** [get_or]: the default when the path ends nowhere or at a value of
    another type. *)
Definition get_int (t : value) (ks : list key) (otherwise : Z) : Z :=
  match traverse t ks with Some (VInt z) => z | _ => otherwise end.

Definition get_string (t : value) (ks : list key) (otherwise : string) : string :=
  match traverse t ks with Some (VStr s) => s | _ => otherwise end.

Definition get_number (t : value) (ks : list key) (otherwise : double) : double :=
  match traverse t ks with
  | Some (VNum q) => q
  | Some (VInt z) => z # 1
  | _ => otherwise
  end.

Definition size_of_table (t : value) : nat :=
  match t with VTable items _ => List.length items | _ => O end.

#[export] Instance runtime : Runtime := {|
  lua_State := interp;
  object := value;
  AudioSampleBuffer := Z * Z;
  MidiPipe := list Z;
  MemoryData := option (list (string * string));
  new_state := mkInterp [] 0;
  lua_nil := VNil;
  valid := is_valid;
  open_libraries := fun st => Returned tt st;
  registerEngine := fun st => Returned tt st;
  sol_script := run_script;
  sol_global := global;
  call := call_with NoArgs;
  call_prepare := fun f rate block st =>
                    discard tt (call_with (PrepareArgs rate block) f st);
  call_render := fun f audio midi st =>
                   discard (audio, midi) (call_with RenderArgs f st);
  collect_garbage := fun st => st;
  table_size := fun t _ => inr (size_of_table t);
  get_or_int := fun t ks d _ => inr (get_int t ks d);
  get_or_string := fun t ks d _ => inr (get_string t ks d);
  get_or_number := fun t ks d _ => inr (get_number t ks d);
  newAudioSampleBuffer := fun channels samples => (channels, samples);
  newMidiPipe := fun idx => idx;
  emptyMidiPipe := [];
  readFromData := fun data => data
|}.

(** A node as the constructor leaves it, not yet prepared. *)
Definition members : LuaNode.t :=
  LuaNode.mk None [] "" "" false (44100 # 1) 1024 0.

Definition node : LuaNode.t :=
  match LuaNode.construct members with
  | Normal _ n => n
  | _ => members
  end.

(** A Context with [text] loaded. *)
Definition loaded_context (text : string) : Context.t :=
  match Context.load text Context.new with
  | Normal _ c => c
  | _ => Context.new
  end.

(** The node after [m] has run on it, when [m] returns. *)
Definition after {A} (m : M LuaNode.t A) (n : LuaNode.t) : LuaNode.t :=
  match m n with
  | Normal _ n' => n'
  | _ => n
  end.

(** The Context and the list after [createPorts] on the Context [c] and
    an empty list, when [createPorts] returns. *)
Definition derived (c : Context.t) : Context.t * kv.PortList :=
  match Context.createPorts (c, []) with
  | Normal _ s => s
  | _ => (c, [])
  end.

(** The node prepared at 48 kHz with blocks of 512 frames. *)
Definition prepared_node : LuaNode.t :=
  after (LuaNode.prepareToRender (48000 # 1) 512) node.

(** The node with the script [counting_ports] installed. *)
Definition counting_node : LuaNode.t :=
  after (LuaNode.loadScript counting_ports) node.

(** A state blob whose tree holds the empty script. *)
Definition empty_script_blob : MemoryData :=
  Some [("script", ""); ("draft", "")].

End Demo.

(* ================================================================== *)
(** * More scripts *)

(** [Scenarios] is the runtime [Demo] with three more scripts in its
    table; everything else is [Demo]'s. *)
Module Scenarios.

(** [node_prepare] accepts one sample rate only. *)
Definition rate_sensitive : string :=
  "function node_prepare (rate, block) if rate ~= 44100 then error ('rate') end end
function node_render (audio, midi) end".

(** [node_params] fails whenever it is called. *)
Definition params_raise : string :=
  "function node_io_ports() return { audio_ins = 1, audio_outs = 1 } end
function node_params() error ('no params') end
function node_render (audio, midi) end".

(** [node_io_ports] answers once and fails from the second call on. *)
Definition ports_once : string :=
  "local n = 0
function node_io_ports() n = n + 1 if n > 1 then error ('again') end return { audio_ins = 1 } end
function node_render (audio, midi) end".

Definition scripts : list (string * list (string * Demo.lua_function)) :=
  (Demo.scripts ++
   [ (rate_sensitive,
      [("node_prepare",
        fun n a =>
          match a with
          | Demo.PrepareArgs rate _ =>
              if Qeq_bool rate (44100 # 1)
              then (inr Demo.VNil, n) else (inl "rate", n)
          | _ => (inr Demo.VNil, n)
          end);
       ("node_render", Demo.returns Demo.VNil)]);
     (params_raise,
      [("node_io_ports",
        Demo.returns (Demo.VTable [] [("audio_ins", Demo.VInt 1);
                                      ("audio_outs", Demo.VInt 1)]));
       ("node_params", Demo.raises "no params");
       ("node_render", Demo.returns Demo.VNil)]);
     (ports_once,
      [("node_io_ports",
        fun n _ =>
          if 1 <? n + 1
          then (inl "again", n + 1)
          else (inr (Demo.VTable [] [("audio_ins", Demo.VInt 1)]), n + 1));
       ("node_render", Demo.returns Demo.VNil)]) ])%list.

Definition run_script (text : string) (st : Demo.interp)
  : raised Demo.interp bool :=
  match Demo.lookup text scripts with
  | Some defs =>
      Returned true (Demo.mkInterp (defs ++ Demo.globals st)%list (Demo.local_n st))
  | None => Raised "syntax error" st
  end.

#[export] Instance runtime : Runtime := {|
  lua_State := Demo.interp;
  object := Demo.value;
  AudioSampleBuffer := Z * Z;
  MidiPipe := list Z;
  MemoryData := option (list (string * string));
  new_state := Demo.mkInterp [] 0;
  lua_nil := Demo.VNil;
  valid := Demo.is_valid;
  open_libraries := fun st => Returned tt st;
  registerEngine := fun st => Returned tt st;
  sol_script := run_script;
  sol_global := Demo.global;
  call := Demo.call_with Demo.NoArgs;
  call_prepare := fun f rate block st =>
                    Demo.discard tt (Demo.call_with (Demo.PrepareArgs rate block) f st);
  call_render := fun f audio midi st =>
                   Demo.discard (audio, midi) (Demo.call_with Demo.RenderArgs f st);
  collect_garbage := fun st => st;
  table_size := fun t _ => inr (Demo.size_of_table t);
  get_or_int := fun t ks d _ => inr (Demo.get_int t ks d);
  get_or_string := fun t ks d _ => inr (Demo.get_string t ks d);
  get_or_number := fun t ks d _ => inr (Demo.get_number t ks d);
  newAudioSampleBuffer := fun channels samples => (channels, samples);
  newMidiPipe := fun idx => idx;
  emptyMidiPipe := [];
  readFromData := fun data => data
|}.

(** The node [LuaNode::LuaNode()] leaves, not yet prepared. *)
Definition node : LuaNode.t :=
  match LuaNode.construct (LuaNode.mk None [] "" "" false (44100 # 1) 1024 0) with
  | Normal _ n => n
  | _ => LuaNode.mk None [] "" "" false (44100 # 1) 1024 0
  end.

(** The node after [m] has run on it, when [m] returns. *)
Definition after {A} (m : M LuaNode.t A) (n : LuaNode.t) : LuaNode.t :=
  match m n with
  | Normal _ n' => n'
  | _ => n
  end.

(** A Context with [text] loaded. *)
Definition loaded_context (text : string) : Context.t :=
  match Context.load text Context.new with
  | Normal _ c => c
  | _ => Context.new
  end.

(** The node prepared at 48 kHz with blocks of 512 frames. *)
Definition prepared_node : LuaNode.t :=
  after (LuaNode.prepareToRender (48000 # 1) 512) node.

(** The node with [rate_sensitive] installed, not prepared. *)
Definition rate_node : LuaNode.t :=
  after (LuaNode.loadScript rate_sensitive) node.

(** The node with [ports_once] installed, after a first [createPorts]. *)
Definition once_node : LuaNode.t :=
  after LuaNode.createPorts (after (LuaNode.loadScript ports_once) node).

(** The node an exception of [m] leaves, when [m] ends by one. *)
Definition thrown {A} (m : M LuaNode.t A) (n : LuaNode.t) : LuaNode.t :=
  match m n with
  | Throws _ n' => n'
  | _ => n
  end.

End Scenarios.

(* ================================================================== *)
(** * A runtime with checked table reads *)

(** [Strict] reads tables as [Demo] does, but a read whose path goes
    through a value that is not a table raises an error (sol2 with its
    safety checks on) instead of giving the default.  It knows one
    script. *)
Module Strict.

(** The second entry of the table of [node_params] is a number. *)
Definition broken_params : string :=
  "function node_io_ports() return { audio_ins = 1 } end
function node_params() return { { name = 'Gain' }, 5 } end
function node_render (audio, midi) end".

Definition params_table : Demo.value :=
  Demo.VTable [Demo.VTable [] [("name", Demo.VStr "Gain")]; Demo.VInt 5] [].

Definition scripts : list (string * list (string * Demo.lua_function)) :=
  [ (broken_params,
     [("node_io_ports",
       Demo.returns (Demo.VTable [] [("audio_ins", Demo.VInt 1)]));
      ("node_params", Demo.returns params_table);
      ("node_render", Demo.returns Demo.VNil)]) ].

Definition run_script (text : string) (st : Demo.interp)
  : raised Demo.interp bool :=
  match Demo.lookup text scripts with
  | Some defs =>
      Returned true (Demo.mkInterp (defs ++ Demo.globals st)%list (Demo.local_n st))
  | None => Raised "syntax error" st
  end.

Definition checked {A} (t : Demo.value) (ks : list key) (get : A) : string + A :=
  match Demo.traverse t ks with
  | Some _ => inr get
  | None => inl "attempt to index a value that is not a table"
  end.

#[export] Instance runtime : Runtime := {|
  lua_State := Demo.interp;
  object := Demo.value;
  AudioSampleBuffer := Z * Z;
  MidiPipe := list Z;
  MemoryData := option (list (string * string));
  new_state := Demo.mkInterp [] 0;
  lua_nil := Demo.VNil;
  valid := Demo.is_valid;
  open_libraries := fun st => Returned tt st;
  registerEngine := fun st => Returned tt st;
  sol_script := run_script;
  sol_global := Demo.global;
  call := Demo.call_with Demo.NoArgs;
  call_prepare := fun f rate block st =>
                    Demo.discard tt (Demo.call_with (Demo.PrepareArgs rate block) f st);
  call_render := fun f audio midi st =>
                   Demo.discard (audio, midi) (Demo.call_with Demo.RenderArgs f st);
  collect_garbage := fun st => st;
  table_size := fun t _ => inr (Demo.size_of_table t);
  get_or_int := fun t ks d _ => checked t ks (Demo.get_int t ks d);
  get_or_string := fun t ks d _ => checked t ks (Demo.get_string t ks d);
  get_or_number := fun t ks d _ => checked t ks (Demo.get_number t ks d);
  newAudioSampleBuffer := fun channels samples => (channels, samples);
  newMidiPipe := fun idx => idx;
  emptyMidiPipe := [];
  readFromData := fun data => data
|}.

(** A Context with [text] loaded. *)
Definition loaded_context (text : string) : Context.t :=
  match Context.load text Context.new with
  | Normal _ c => c
  | _ => Context.new
  end.

End Strict.

(* ================================================================== *)
(** * A script that must be prepared *)

(** [Stateful] is the runtime [Demo] with one more script in its table;
    everything else is [Demo]'s. *)
Module Stateful.

(** [node_prepare] keeps the block size, and [node_render] fails as long
    as none was given. *)
Definition needs_prepare : string :=
  "local n = 0
function node_prepare (rate, block) n = block end
function node_render (audio, midi) if n == 0 then error ('not prepared') end end".

Definition scripts : list (string * list (string * Demo.lua_function)) :=
  (Demo.scripts ++
   [ (needs_prepare,
      [("node_prepare",
        fun n a =>
          match a with
          | Demo.PrepareArgs _ block => (inr Demo.VNil, block)
          | _ => (inr Demo.VNil, n)
          end);
       ("node_render",
        fun n _ =>
          if n =? 0 then (inl "not prepared", n) else (inr Demo.VNil, n))]) ])%list.

Definition run_script (text : string) (st : Demo.interp)
  : raised Demo.interp bool :=
  match Demo.lookup text scripts with
  | Some defs =>
      Returned true (Demo.mkInterp (defs ++ Demo.globals st)%list (Demo.local_n st))
  | None => Raised "syntax error" st
  end.

#[export] Instance runtime : Runtime := {|
  lua_State := Demo.interp;
  object := Demo.value;
  AudioSampleBuffer := Z * Z;
  MidiPipe := list Z;
  MemoryData := option (list (string * string));
  new_state := Demo.mkInterp [] 0;
  lua_nil := Demo.VNil;
  valid := Demo.is_valid;
  open_libraries := fun st => Returned tt st;
  registerEngine := fun st => Returned tt st;
  sol_script := run_script;
  sol_global := Demo.global;
  call := Demo.call_with Demo.NoArgs;
  call_prepare := fun f rate block st =>
                    Demo.discard tt (Demo.call_with (Demo.PrepareArgs rate block) f st);
  call_render := fun f audio midi st =>
                   Demo.discard (audio, midi) (Demo.call_with Demo.RenderArgs f st);
  collect_garbage := fun st => st;
  table_size := fun t _ => inr (Demo.size_of_table t);
  get_or_int := fun t ks d _ => inr (Demo.get_int t ks d);
  get_or_string := fun t ks d _ => inr (Demo.get_string t ks d);
  get_or_number := fun t ks d _ => inr (Demo.get_number t ks d);
  newAudioSampleBuffer := fun channels samples => (channels, samples);
  newMidiPipe := fun idx => idx;
  emptyMidiPipe := [];
  readFromData := fun data => data
|}.

(** A Context with [text] loaded. *)
Definition loaded_context (text : string) : Context.t :=
  match Context.load text Context.new with
  | Normal _ c => c
  | _ => Context.new
  end.


(** The node after [m] has run on it, when [m] returns. *)
Definition after {A} (m : M LuaNode.t A) (n : LuaNode.t) : LuaNode.t :=
  match m n with
  | Normal _ n' => n'
  | _ => n
  end.

(** The node [LuaNode::LuaNode()] leaves, then prepared at 48 kHz with
    blocks of 512 frames: its active Context is the one of the built-in
    script. *)
Definition prepared_node : LuaNode.t :=
  after (LuaNode.prepareToRender (48000 # 1) 512)
        (after (fun members => LuaNode.construct members)
               (LuaNode.mk None [] "" "" false (44100 # 1) 1024 0)).

(** That node after [loadScript (needs_prepare)]. *)
Definition swapped_node : LuaNode.t :=
  after (LuaNode.loadScript needs_prepare) prepared_node.

(** That node, had the Context of [needs_prepare] been made the active
    one as [load] leaves it. *)
Definition unprepared_node : LuaNode.t :=
  LuaNode.set_context (Some (loaded_context needs_prepare))
                      (LuaNode.set_scripts needs_prepare prepared_node).

End Stateful.

(** State blobs for the runtime [Demo]. *)
Module Blobs.

(** The blob [getState] writes for the node with [counting_ports]. *)
Definition counting_blob : @MemoryData Demo.runtime :=
  Some (LuaNode.getState Demo.counting_node).

(** A valid tree without a "script" property. *)
Definition draft_only_blob : @MemoryData Demo.runtime :=
  Some [("draft", "x = 1")].

End Blobs.

(* ================================================================== *)
(** * Plugin windows  (project/Source/gui/PluginWindow.cpp)

    The registry of the open plugin windows.  Objects are referred to by
    their address.  Of a [GraphNode] the model keeps what the functions
    of the file read and write: its id, its property "windowVisible", the
    suspended flag of its processor and what its plugin instance says
    about an editor.  Of a [PluginWindow] it keeps the member [owner].
    The position and the content of a window, which JUCE changes from
    its own callbacks, are not modelled.  The nodes belong to the graph:
    deleting a window deletes no node. *)

Module PluginWindow.

Definition address : Type := nat.

(** [AudioPluginInstance]: [hasEditor()], and whether
    [createEditorIfNeeded()] gives an editor. *)
Record Plugin : Type := mkPlugin {
  hasEditor : bool;
  createsEditor : bool
}.

(** [windowVisible] is the property of that name, [None] when it is not
    set; [plugin] is [getAudioPluginInstance()], [None] the null pointer. *)
Record GraphNode : Type := mkNode {
  nodeId : N;
  windowVisible : option bool;
  suspended : bool;
  plugin : option Plugin
}.

(** The objects alive, and [static Array <PluginWindow*> activePluginWindows].
    A window is stored with its member [owner], a [GraphNode*]. *)
Record Desktop : Type := mkDesktop {
  nodes : list (address * GraphNode);
  windows : list (address * option address);
  activePluginWindows : list address
}.

Fixpoint find {A} (a : address) (l : list (address * A)) : option A :=
  match l with
  | [] => None
  | (a', x) :: rest => if Nat.eqb a' a then Some x else find a rest
  end.

Fixpoint store {A} (a : address) (x : A) (l : list (address * A))
  : list (address * A) :=
  match l with
  | [] => [(a, x)]
  | (a', y) :: rest => if Nat.eqb a' a then (a, x) :: rest else (a', y) :: store a x rest
  end.

Fixpoint erase {A} (a : address) (l : list (address * A)) : list (address * A) :=
  match l with
  | [] => []
  | (a', y) :: rest => if Nat.eqb a' a then erase a rest else (a', y) :: erase a rest
  end.

(** [Array::removeFirstMatchingValue] *)
Fixpoint removeFirstMatchingValue (a : address) (l : list address) : list address :=
  match l with
  | [] => []
  | a' :: rest => if Nat.eqb a' a then rest else a' :: removeFirstMatchingValue a rest
  end.

(** [node->...]: a null pointer or the address of no node has nothing to
    read. *)
Definition node_at (p : option address) : M Desktop GraphNode :=
  fun d =>
    match p with
    | None => Crash
    | Some a =>
        match find a (nodes d) with
        | Some nd => Normal nd d
        | None => Crash
        end
    end.

(** [window->owner] *)
Definition owner_of (w : address) : M Desktop (option address) :=
  fun d =>
    match find w (windows d) with
    | Some o => Normal o d
    | None => Crash
    end.

(** [Array::getUnchecked (i)] *)
Definition getUnchecked (i : nat) : M Desktop address :=
  fun d =>
    match nth_error (activePluginWindows d) i with
    | Some w => Normal w d
    | None => Crash
    end.

Definition update_node (p : option address) (f : GraphNode -> GraphNode)
  : M Desktop unit :=
  nd <- node_at p ;;
  match p with
  | Some a =>
      modify (fun d => mkDesktop (store a (f nd) (nodes d)) (windows d)
                                 (activePluginWindows d))
  | None => ret tt
  end.

(** [owner->properties.set ("windowVisible", b)] *)
Definition set_windowVisible (p : option address) (b : bool) : M Desktop unit :=
  update_node p (fun nd => mkNode (nodeId nd) (Some b) (suspended nd) (plugin nd)).

(** [PluginWindow::PluginWindow (ui, node)] for the object at [this];
    [ui] says whether the pointer to the editor component is not null. *)
Definition construct (this : address) (ui : bool) (node : option address)
  : M Desktop unit :=
  if negb ui then (fun _ => Crash)
  else
    ((* owner (node) *)
     modify (fun d => mkDesktop (nodes d) (store this node (windows d))
                                (activePluginWindows d)) ;;
     (* new PluginWindowContent (ui, owner) reads the suspended flag *)
     _ <- node_at node ;;
     set_windowVisible node true ;;
     (* activePluginWindows.add (this); *)
     modify (fun d => mkDesktop (nodes d) (windows d)
                                (activePluginWindows d ++ [this])%list)).

(** [delete window]: the destructor takes the window out of the array. *)
Definition destroy (this : address) : M Desktop unit :=
  fun d =>
    match find this (windows d) with
    | None => Crash
    | Some _ =>
        Normal tt (mkDesktop (nodes d) (erase this (windows d))
                             (removeFirstMatchingValue this (activePluginWindows d)))
    end.

(** [for (int i = activePluginWindows.size(); --i >= 0;)
       if (activePluginWindows.getUnchecked(i)->owner->nodeId == nodeId)
         { delete activePluginWindows.getUnchecked(i); break; }]
    with [i] the number of indexes still to visit. *)
Fixpoint close_loop (i : nat) (id : N) : M Desktop unit :=
  match i with
  | O => ret tt
  | S j =>
      w <- getUnchecked j ;;
      o <- owner_of w ;;
      nd <- node_at o ;;
      if N.eqb (nodeId nd) id then destroy w else close_loop j id
  end.

(** [closeCurrentlyOpenWindowsFor (const uint32 nodeId)] *)
Definition closeCurrentlyOpenWindowsFor_id (id : N) : M Desktop unit :=
  d <- get ;;
  close_loop (List.length (activePluginWindows d)) id.

(** [closeCurrentlyOpenWindowsFor (GraphNode* const node)] *)
Definition closeCurrentlyOpenWindowsFor (node : option address) : M Desktop unit :=
  match node with
  | None => ret tt
  | Some _ => nd <- node_at node ;; closeCurrentlyOpenWindowsFor_id (nodeId nd)
  end.

Fixpoint closeAll_loop (i : nat) : M Desktop unit :=
  match i with
  | O => ret tt
  | S j => w <- getUnchecked j ;; destroy w ;; closeAll_loop j
  end.

(** The run of the message loop that ends
    [closeAllCurrentlyOpenWindows] is not modelled. *)
Definition closeAllCurrentlyOpenWindows : M Desktop unit :=
  d <- get ;;
  if Nat.ltb 0 (List.length (activePluginWindows d))
  then closeAll_loop (List.length (activePluginWindows d))
  else ret tt.

Definition same_node (a b : option address) : bool :=
  match a, b with
  | Some x, Some y => Nat.eqb x y
  | None, None => true
  | _, _ => false
  end.

Fixpoint find_loop (i : nat) (node : option address) : M Desktop (option address) :=
  match i with
  | O => ret None
  | S j =>
      w <- getUnchecked j ;;
      o <- owner_of w ;;
      if same_node o node then ret (Some w) else find_loop j node
  end.

Definition getWindowFor (node : option address) : M Desktop (option address) :=
  d <- get ;;
  find_loop (List.length (activePluginWindows d)) node.

(** [activePluginWindows.getFirst()] *)
Definition getFirstWindow (d : Desktop) : option address :=
  hd_error (activePluginWindows d).

(** [createWindowFor (GraphNode* node)]; [fresh] is the address [new]
    gives when a window is made. *)
Definition createWindowFor (node : option address) (fresh : address)
  : M Desktop (option address) :=
  nd <- node_at node ;;
  match plugin nd with
  | None => fun _ => Crash
  | Some plug =>
      if negb (hasEditor plug) then ret None
      else if createsEditor plug
           then (construct fresh true node ;; ret (Some fresh))
           else ret None
  end.

(** [createWindowFor (GraphNode* node, Component* ed)] *)
Definition createWindowFor_editor (node : option address) (ed : bool)
           (fresh : address) : M Desktop (option address) :=
  construct fresh ed node ;; ret (Some fresh).

Definition getOrCreateWindowFor (node : option address) (fresh : address)
  : M Desktop (option address) :=
  win <- getWindowFor node ;;
  match win with
  | Some w => ret (Some w)
  | None => createWindowFor node fresh
  end.

(** [updateGraphNode (newNode, newEditor)] on the window at [this] *)
Definition updateGraphNode (this : address) (newNode : option address)
  : M Desktop unit :=
  _ <- owner_of this ;;
  modify (fun d => mkDesktop (nodes d) (store this newNode (windows d))
                             (activePluginWindows d)).

Definition closeButtonPressed (this : address) : M Desktop unit :=
  o <- owner_of this ;;
  (match o with
   | Some _ => set_windowVisible o false
   | None => ret tt
   end) ;;
  destroy this.

(** The array holds each live window once, and nothing else. *)
Definition registered (d : Desktop) : Prop :=
  NoDup (activePluginWindows d) /\
  (forall w, In w (activePluginWindows d) <-> find w (windows d) <> None).

(** Every live window has an owner that is a live node. *)
Definition owners_live (d : Desktop) : Prop :=
  forall w o, find w (windows d) = Some o ->
              exists a nd, o = Some a /\ find a (nodes d) = Some nd.

Definition registry_ok (d : Desktop) : Prop :=
  registered d /\ owners_live d.

(** [window->owner->nodeId] of a live window with a live owner. *)
Definition owner_id (d : Desktop) (w : address) : option N :=
  match find w (windows d) with
  | Some (Some a) =>
      match find a (nodes d) with
      | Some nd => Some (nodeId nd)
      | None => None
      end
  | _ => None
  end.

(** A desktop to run the functions on: two nodes with an editor, no
    window yet; and the same nodes with three windows, two of them of the
    first node. *)
Definition synth : GraphNode :=
  mkNode 7%N None false (Some (mkPlugin true true)).

Definition reverb : GraphNode :=
  mkNode 9%N None false (Some (mkPlugin true true)).

Definition no_windows : Desktop :=
  mkDesktop [(1%nat, synth); (2%nat, reverb)] [] [].

Definition three_windows : Desktop :=
  mkDesktop [(1%nat, synth); (2%nat, reverb)]
            [(10%nat, Some 1%nat); (11%nat, Some 2%nat); (12%nat, Some 1%nat)]
            [10%nat; 11%nat; 12%nat].

(** The array naming one window twice. *)
Definition twice_registered : Desktop :=
  mkDesktop [(1%nat, synth)] [(10%nat, Some 1%nat)] [10%nat; 10%nat].

(** What the constructor makes of a desktop where the node at [a] is [nd]. *)
Definition constructed (this a : address) (nd : GraphNode) (d : Desktop) : Desktop :=
  mkDesktop (store a (mkNode (nodeId nd) (Some true) (suspended nd) (plugin nd))
                   (nodes d))
            (store this (Some a) (windows d))
            (activePluginWindows d ++ [this])%list.

End PluginWindow.

(* ================================================================== *)
(** * Vocabulary of the statements *)

Definition symbols (ports : kv.PortList) : list string := map kv.symbol ports.

(** The group of a port: its type and its direction. *)
Definition group (p : kv.Port) : kv.PortType * bool := (kv.type p, kv.isInput p).

Definition group_eq_dec (x y : kv.PortType * bool) : {x = y} + {x <> y}.
Proof. decide equality; [apply Bool.bool_dec | decide equality]. Defined.

(** The ports of group [g] in a list. *)
Definition count_group (g : kv.PortType * bool) (ports : kv.PortList) : nat :=
  count_occ group_eq_dec (map group ports) g.

(** The numbering of the data model: the index of a port is its position
    in the list, and its channel is its position among the ports of its
    own group. *)
Definition numbered (ports : kv.PortList) : Prop :=
  forall before p after,
    ports = (before ++ p :: after)%list ->
    kv.index p = Z.of_nat (List.length before) /\
    kv.channel p = Z.of_nat (count_group (group p) before).

(** The Control ports of a list of declarations (name, symbol,
    direction), added after [ports]: the index goes on from [index], and
    the inputs and the outputs have a channel count each. *)
Fixpoint control_ports (decls : list (string * string * bool))
         (index inChan outChan : Z) (ports : kv.PortList) : kv.PortList :=
  match decls with
  | [] => ports
  | (name, sym, isInput) :: rest =>
      control_ports rest (index + 1)
                    (if isInput then inChan + 1 else inChan)
                    (if isInput then outChan else outChan + 1)
                    (kv.add ports kv.Control index
                            (if isInput then inChan else outChan)
                            sym name isInput)
  end.

(** The list a Context makes of [ports] when its script declares the
    counts [counts] and the parameters [decls]. *)
Definition declared_ports (counts : Z * Z * Z * Z)
           (decls : list (string * string * bool))
           (ports : kv.PortList) : kv.PortList :=
  let '(audioIns, audioOuts, midiIns, midiOuts) := counts in
  let io := Context.add_io_ports audioIns audioOuts midiIns midiOuts ports in
  control_ports decls (kv.size io) 0 0 io.

Section Vocabulary.

Context {RT : Runtime}.

(** What a script declares through [node_io_ports], in interpreter state
    [st]: nothing when the function is not there, otherwise the counts
    read from the table it returns.  [st'] is the state after the call. *)
Inductive io_declared (st : lua_State) : Z * Z * Z * Z -> lua_State -> Prop :=
| io_absent :
    valid (sol_global "node_io_ports" st) = false ->
    io_declared st (0, 0, 0, 0) st
| io_present (t : object) (st' : lua_State) :
    valid (sol_global "node_io_ports" st) = true ->
    call (sol_global "node_io_ports" st) st = Returned t st' ->
    io_declared st (Context.read_io_counts t st') st'.

(** What a script declares through [node_params]: the list of
    (name, symbol, direction) of the entries of the table it returns,
    each of them readable. *)
Inductive params_declared (st : lua_State)
  : list (string * string * bool) -> lua_State -> Prop :=
| params_absent :
    valid (sol_global "node_params" st) = false ->
    params_declared st [] st
| params_present (params : object) (st' : lua_State)
                 (decls : list (string * string * bool)) :
    valid (sol_global "node_params" st) = true ->
    call (sol_global "node_params" st) st = Returned params st' ->
    table_size params st' = inr (List.length decls) ->
    (forall k d, nth_error decls k = Some d ->
                 Context.read_param params (Z.of_nat k) st' = inr d) ->
    params_declared st decls st'.

(** What [prepare (rate, block)] does to the interpreter of a loaded
    script: [st'] is the state after the script's [node_prepare] was
    called with [rate] and [block] and returned, and the garbage was
    collected; a script that defines no [node_prepare] has none to call. *)
Definition node_prepare_ran (rate : double) (block : Z) (st st' : lua_State)
  : Prop :=
  (valid (sol_global "node_prepare" st) = true /\
   exists st1,
     call_prepare (sol_global "node_prepare" st) rate block st = Returned tt st1 /\
     st' = collect_garbage st1) \/
  (valid (sol_global "node_prepare" st) = false /\ st' = collect_garbage st).

(** A prepared Context: a ready one whose [node_prepare] has run with
    [rate] and [block], and that has only rendered since. *)
Inductive prepared_with (rate : double) (block : Z) : Context.t -> Prop :=
| prepared_by_prepare (c : Context.t) (st' : lua_State) :
    Context.ready c = true ->
    node_prepare_ran rate block (Context.state c) st' ->
    prepared_with rate block (Context.set_state st' c)
| prepared_after_render (c c' : Context.t) audio midi bufs :
    prepared_with rate block c ->
    Context.render audio midi c = Normal bufs c' ->
    prepared_with rate block c'.

(** The buffers [validate] makes for its dry run from the ports of the
    script: [max (1, max (audio ins, audio outs))] channels of 1024 frames,
    and a pipe of [max (midi ins, midi outs)] empty MIDI buffers. *)
Definition dummy_audio (ports : kv.PortList) : AudioSampleBuffer :=
  newAudioSampleBuffer
    (jmax 1 (jmax (kv.size_of ports kv.Audio true)
                  (kv.size_of ports kv.Audio false)))
    1024.

Definition dummy_midi (ports : kv.PortList) : MidiPipe :=
  let midiIdx :=
    Context.midi_indexes (jmax (kv.size_of ports kv.Midi true)
                               (kv.size_of ports kv.Midi false)) in
  match midiIdx with
  | [] => emptyMidiPipe
  | _ => newMidiPipe midiIdx
  end.

(** The one call of the render entry point in the dry run of [validate]:
    [c'] is the Context after it; a Context without render entry point is
    not called. *)
Definition dry_render (ports : kv.PortList) (c c' : Context.t) : Prop :=
  (valid (Context.renderf c) = true /\
   exists bufs,
     Context.in_state (call_render (Context.renderf c)
                                   (dummy_audio ports) (dummy_midi ports)) c
     = Normal bufs c') \/
  (valid (Context.renderf c) = false /\ c' = c).

(** The ports of one group of [addIOPorts], [count] of them: the [k]-th
    one (from 0) has the index [base + k], the channel [k], and the number
    [k + 1] at the end of its symbol and of its name. *)
Definition port_group (ty : kv.PortType) (input : bool) (slug name : string)
           (base : Z) (count : nat) : kv.PortList :=
  map (fun k => kv.mkPort ty (base + Z.of_nat k) (Z.of_nat k)
                          (append_int slug (Z.of_nat k + 1))
                          (append_int name (Z.of_nat k + 1)) input)
      (seq 0 count).

(** [m], run in state [s], ends in state [s']: it returns, or an
    exception leaves it. *)
Definition ends_in {S A} (m : M S A) (s s' : S) : Prop :=
  (exists a, m s = Normal a s') \/ (exists what, m s = Throws what s').

(** "Node prepared implies active Context prepared": a call of [render]
    on a prepared node reaches a script only on a prepared Context (a
    Context that is not ready has no script to reach). *)
Definition prepared_invariant (n : LuaNode.t) : Prop :=
  LuaNode.prepared n = true ->
  exists c, LuaNode.context n = Some c /\
            (Context.ready c = true ->
             prepared_with (LuaNode.sampleRate n) (LuaNode.blockSize n) c).


End Vocabulary.

(* ================================================================== *)
(** * Properties *)

Local Open Scope list_scope.

Section Properties.

Context {RT : Runtime}.

Ltac run :=
  unfold bind, ret, get, modify, try_catch, zoom, lua, with_local, noexcept in *.

(** Case analysis on the innermost call or test the goal branches on. *)
Ltac cases :=
  cbn [fst snd];
  repeat match goal with
         | |- context [match ?x with _ => _ end] =>
             lazymatch x with
             | context [match _ with _ => _ end] => fail
             | _ => destruct x eqn:?; cbn [fst snd] in *
             end
         end.

(** ** [Context::load] *)

(** [load] catches what the interpreter raises: it returns, and the
    result of a first load says whether the Context is ready. *)
Lemma load_returns (text : string) (c : Context.t) :
  Context.loaded c = false ->
  exists c',
    Context.load text c
    = Normal (if Context.loaded c' then ok else fail "Couldn't load Lua script") c'.
Proof.
  intros Hc. unfold Context.load, Context.in_state, Context.ready. run.
  rewrite Hc.
  destruct (open_libraries (Context.state c)) as [[] s1|w1 s1]; cbn.
  2: match goal with |- exists _, Normal _ ?c0 = _ => exists c0; reflexivity end.
  destruct (registerEngine s1) as [[] s2|w2 s2]; cbn.
  2: match goal with |- exists _, Normal _ ?c0 = _ => exists c0; reflexivity end.
  destruct (sol_script text s2) as [[] s3|w3 s3]; cbn;
    match goal with |- exists _, Normal _ ?c0 = _ => exists c0; reflexivity end.
Qed.

(** ** [Context::validate] *)

(** [validate] works on a Context of its own: whatever its result, the
    caller's state is as before. *)
Lemma validate_keeps_state {S} (text : string) (s : S) :
  match Context.validate text s with
  | Normal _ s' => s' = s
  | Throws _ s' => s' = s
  | Crash => True
  end.
Proof.
  unfold Context.validate.
  destruct (isEmpty text); [reflexivity|].
  unfold with_local.
  match goal with |- context [match ?m Context.new with _ => _ end] =>
    destruct (m Context.new) end; auto.
Qed.

(** Nothing but [render] ends the process. *)
Lemma in_state_no_crash {A} (f : lua_State -> raised lua_State A) (c : Context.t) :
  Context.in_state f c <> Crash.
Proof. unfold Context.in_state. run. destruct (f (Context.state c)); discriminate. Qed.

Lemma prepare_no_crash (rate : double) (block : Z) (c : Context.t) :
  Context.prepare rate block c <> Crash.
Proof.
  unfold Context.prepare. run. destruct (negb (Context.ready c)); [discriminate|].
  destruct (valid (sol_global "node_prepare" (Context.state c))); [|discriminate].
  pose proof (@in_state_no_crash _
                (call_prepare (sol_global "node_prepare" (Context.state c)) rate block)
                c) as H.
  destruct (Context.in_state _ c); try discriminate. congruence.
Qed.

Lemma release_no_crash (c : Context.t) : Context.release c <> Crash.
Proof.
  unfold Context.release. run. destruct (negb (Context.ready c)); [discriminate|].
  destruct (valid (sol_global "node_release" (Context.state c))); [|discriminate].
  pose proof (@in_state_no_crash _
                (call (sol_global "node_release" (Context.state c))) c) as H.
  destruct (Context.in_state _ c); try discriminate. congruence.
Qed.

Lemma createPorts_no_crash (s : Context.t * kv.PortList) :
  Context.createPorts s <> Crash.
Proof.
  unfold Context.createPorts, Context.addIOPorts, Context.addParameters,
    Context.on_context, Context.on_ports, Context.in_state.
  run. cases; discriminate.
Qed.

(** [validate] catches every error of the dry run: it returns a result. *)
Lemma validate_returns {S} (text : string) (s : S) :
  exists r, Context.validate text s = Normal r s.
Proof.
  unfold Context.validate.
  destruct (isEmpty text); [eexists; reflexivity|].
  destruct (@load_returns text Context.new eq_refl) as [c Hload].
  unfold with_local, bind at 1. rewrite Hload.
  destruct (Context.loaded c) eqn:Hl; cbn [failed]; [|eexists; reflexivity].
  unfold Context.ready. run. rewrite Hl. cbn [negb].
  unfold Context.createPorts_local.
  pose proof (createPorts_no_crash (c, [])) as Hports.
  destruct (Context.createPorts (c, [])) as [[] [c1 ports]|w [c1 ports]|];
    [|eexists; reflexivity|congruence].
  cases; try (eexists; reflexivity); exfalso;
    match goal with
    | H : Context.prepare _ _ _ = Crash |- _ => exact (prepare_no_crash _ _ _ H)
    | H : Context.release _ = Crash |- _ => exact (release_no_crash _ H)
    | H : Context.in_state _ _ = Crash |- _ => exact (in_state_no_crash _ _ H)
    end.
Qed.

(** ** [LuaNode::loadScript] *)

Lemma release_not_ready (c : Context.t) :
  Context.loaded c = false -> Context.release c = Normal tt c.
Proof.
  intros Hc. unfold Context.release, Context.ready. run. now rewrite Hc.
Qed.

Lemma loadScript_failed_keeps_node (text what : string) (n n' : LuaNode.t) :
  LuaNode.loadScript text n = Normal (fail what) n' -> n' = n.
Proof.
  unfold LuaNode.loadScript. unfold bind at 1.
  pose proof (validate_keeps_state text n) as Hv.
  destruct (Context.validate text n) as [r n0|w n0|]; try discriminate.
  subst n0. destruct r as [|m]; cbn [failed].
  - destruct (@load_returns text Context.new eq_refl) as [c' Hload].
    unfold LuaNode.with_newContext, LuaNode.on_newContext, LuaNode.deref,
      LuaNode.on_node, LuaNode.swap.
    run. cbn [fst snd]. rewrite Hload.
    destruct (Context.loaded c') eqn:Hl; cbn [wasOk failed negb].
    + (* the load succeeded: the call returns [ok], or does not return *)
      cases; discriminate.
    + cbn [fst snd]. rewrite (release_not_ready c' Hl). cbn [fst snd].
      intros [= _ <-]. reflexivity.
  - unfold ret. intros [= _ <-]. reflexivity.
Qed.

(** C1.  [loadScript] is all-or-nothing: when it returns a failure (from
    the validation or from the load of the new Context) the committed
    script, the draft script and the active Context are what they were,
    and so is what a following [render] does. *)
Theorem loadScript_all_or_nothing (text what : string) (n n' : LuaNode.t) :
  LuaNode.loadScript text n = Normal (fail what) n' ->
  LuaNode.script n' = LuaNode.script n /\
  LuaNode.draftScript n' = LuaNode.draftScript n /\
  LuaNode.context n' = LuaNode.context n /\
  forall audio midi,
    LuaNode.render audio midi n' = LuaNode.render audio midi n.
Proof.
  intros H. apply loadScript_failed_keeps_node in H. subst n'.
  repeat split.
Qed.

(** C8.  The empty text is rejected at once: [validate] is the plain
    return of the failure "script contains no code", no Context is made,
    and [loadScript] returns that failure with the node as it was. *)
Theorem empty_script_rejected (n : LuaNode.t) :
  @Context.validate RT LuaNode.t "" = ret (fail "script contains no code") /\
  LuaNode.loadScript "" n = Normal (fail "script contains no code") n.
Proof. split; reflexivity. Qed.

(** ** [Context::render] *)

(** C2, as the code has it.  [render] is [noexcept] and has no guard:
    no exception ever leaves it; it does nothing when the Context is not
    loaded; when it is, it returns exactly when the render entry point
    returns, and an error raised by the entry point ends the process
    instead of being swallowed. *)
Theorem render_unguarded (audio : AudioSampleBuffer) (midi : MidiPipe)
        (c : Context.t) :
  (forall what c', Context.render audio midi c <> Throws what c') /\
  (Context.loaded c = false ->
   Context.render audio midi c = Normal (audio, midi) c) /\
  (forall f, Context.loaded c = true -> Context.renderstdf c = Some f ->
             Context.render audio midi c
             = match call_render f audio midi (Context.state c) with
               | Returned bufs st => Normal bufs (Context.set_state st c)
               | Raised _ _ => Crash
               end).
Proof.
  unfold Context.render, Context.in_state. run.
  repeat split.
  - intros what c'. destruct (Context.loaded c); [|discriminate].
    destruct (Context.renderstdf c) as [f|]; [|discriminate].
    destruct (call_render f audio midi (Context.state c)); discriminate.
  - intros ->. reflexivity.
  - intros f -> ->.
    destruct (call_render f audio midi (Context.state c)); reflexivity.
Qed.

(** C3, as the code has it.  After a first [load], [ready()] says that
    the libraries were opened and the script text ran with a valid
    result, and nothing more: [renderf] is whatever the global
    [node_render] holds then (nil when the script defines none) and
    [load] does not test it. *)
Theorem ready_iff_script_ran (text : string) (c c' : Context.t) (r : Result) :
  Context.loaded c = false ->
  Context.load text c = Normal r c' ->
  (Context.ready c' = true <->
   exists st1 st2 st3,
     open_libraries (Context.state c) = Returned tt st1 /\
     registerEngine st1 = Returned tt st2 /\
     sol_script text st2 = Returned true st3) /\
  (Context.ready c' = true ->
   r = ok /\
   Context.renderf c' = sol_global "node_render" (Context.state c') /\
   Context.renderstdf c' = Some (Context.renderf c')).
Proof.
  intros Hc. unfold Context.load, Context.in_state, Context.ready. run.
  rewrite Hc.
  destruct (open_libraries (Context.state c)) as [[] s1|w1 s1] eqn:E1; cbn.
  2: { intros [= <- <-]; cbn. split; [split|]; try discriminate.
       intros (? & ? & ? & E & _). discriminate E. }
  destruct (registerEngine s1) as [[] s2|w2 s2] eqn:E2; cbn.
  2: { intros [= <- <-]; cbn. split; [split|]; try discriminate.
       intros (? & ? & ? & E & E' & _). congruence. }
  destruct (sol_script text s2) as [[] s3|w3 s3] eqn:E3; cbn;
    intros [= <- <-]; cbn; rewrite ?Hc.
  - split; [split|]; auto. intros _. exists s1, s2, s3. auto.
  - split; [split|]; try discriminate.
    intros (? & ? & ? & E & E' & E''). congruence.
  - split; [split|]; try discriminate.
    intros (? & ? & ? & E & E' & E''). congruence.
Qed.

(** What a successful [loadScript] has done. *)
Lemma loadScript_ok_inv (text : string) (n n' : LuaNode.t) :
  LuaNode.loadScript text n = Normal ok n' ->
  exists c1 c2,
    Context.load text Context.new = Normal ok c1 /\
    (if LuaNode.prepared n
     then Context.prepare (LuaNode.sampleRate n) (LuaNode.blockSize n) c1
     else Normal tt c1) = Normal tt c2 /\
    n' = LuaNode.set_context (Some c2) (LuaNode.set_scripts text n).
Proof.
  unfold LuaNode.loadScript. unfold bind at 1.
  pose proof (validate_keeps_state text n) as Hv.
  destruct (Context.validate text n) as [r n0|w n0|]; try discriminate.
  subst n0. destruct r as [|m]; cbn [failed]; [|discriminate].
  destruct (@load_returns text Context.new eq_refl) as [c1 Hload].
  unfold LuaNode.with_newContext, LuaNode.on_newContext, LuaNode.deref,
    LuaNode.on_node, LuaNode.swap.
  run. cbn [fst snd]. rewrite Hload.
  destruct (Context.loaded c1) eqn:Hl; cbn [wasOk failed negb].
  2: { cbn [fst snd]. rewrite (release_not_ready c1 Hl). discriminate. }
  cbn [fst snd LuaNode.prepared LuaNode.set_scripts LuaNode.sampleRate
       LuaNode.blockSize LuaNode.context LuaNode.set_context].
  destruct (LuaNode.prepared n);
    cbn [fst snd LuaNode.prepared LuaNode.set_scripts LuaNode.sampleRate
         LuaNode.blockSize LuaNode.context LuaNode.set_context].
  - destruct (Context.prepare (LuaNode.sampleRate n) (LuaNode.blockSize n) c1)
      as [[] c2|w c2|] eqn:Hprep;
      cbn [fst snd LuaNode.context LuaNode.set_scripts];
      try discriminate.
    destruct (LuaNode.context n) as [old|]; cbn [fst snd].
    + destruct (Context.release old) as [[] old'|w old'|]; cbn [fst snd];
        try discriminate.
      intros [= <-]. exists c1, c2. repeat split. exact Hprep.
    + intros [= <-]. exists c1, c2. repeat split. exact Hprep.
  - cbn [fst snd LuaNode.context LuaNode.set_scripts].
    destruct (LuaNode.context n) as [old|]; cbn [fst snd].
    + destruct (Context.release old) as [[] old'|w old'|]; cbn [fst snd];
        try discriminate.
      intros [= <-]. exists c1, c1. repeat split.
    + intros [= <-]. exists c1, c1. repeat split.
Qed.

(** [loadScript] sends no change message and leaves [prepared], the
    sample rate and the block size alone. *)
Lemma loadScript_ok_members (text : string) (n n' : LuaNode.t) :
  LuaNode.loadScript text n = Normal ok n' ->
  LuaNode.prepared n' = LuaNode.prepared n /\
  LuaNode.sampleRate n' = LuaNode.sampleRate n /\
  LuaNode.blockSize n' = LuaNode.blockSize n /\
  LuaNode.changeMessages n' = LuaNode.changeMessages n /\
  LuaNode.script n' = text /\ LuaNode.draftScript n' = text.
Proof.
  intros H. apply loadScript_ok_inv in H as (c1 & c2 & _ & _ & ->).
  repeat split.
Qed.

(** ** The hot swap *)

(** [prepare] on a ready Context calls [node_prepare] with its two
    arguments and collects the garbage, and nothing else. *)
Lemma prepare_ran (rate : double) (block : Z) (c c' : Context.t) :
  Context.ready c = true ->
  Context.prepare rate block c = Normal tt c' ->
  exists st', node_prepare_ran rate block (Context.state c) st' /\
              c' = Context.set_state st' c.
Proof.
  intros Hc. unfold Context.prepare, Context.in_state, node_prepare_ran. run.
  rewrite Hc. cbn [negb].
  destruct (valid (sol_global "node_prepare" (Context.state c))) eqn:Hv.
  - destruct (call_prepare (sol_global "node_prepare" (Context.state c)) rate block
                           (Context.state c)) as [[] st1|w st1] eqn:Hcall;
      [|discriminate].
    intros [= <-]. exists (collect_garbage st1). split; [|reflexivity].
    left. split; [reflexivity|]. now exists st1.
  - intros [= <-]. exists (collect_garbage (Context.state c)).
    split; [|reflexivity]. now right.
Qed.

Lemma prepare_prepares (rate : double) (block : Z) (c c' : Context.t) :
  Context.ready c = true ->
  Context.prepare rate block c = Normal tt c' ->
  prepared_with rate block c'.
Proof.
  intros Hc H. destruct (prepare_ran _ _ _ Hc H) as (st' & Hran & ->).
  now constructor.
Qed.

Lemma prepare_keeps_ready (rate : double) (block : Z) (c c' : Context.t) :
  Context.prepare rate block c = Normal tt c' ->
  Context.ready c' = Context.ready c.
Proof.
  destruct (Context.ready c) eqn:Hc; intros H.
  - destruct (prepare_ran _ _ _ Hc H) as (st' & _ & ->). exact Hc.
  - unfold Context.prepare in H. run. rewrite Hc in H. cbn in H.
    injection H as <-. exact Hc.
Qed.





(** The operations of the node keep "node prepared implies active Context
    prepared": [prepareToRender] establishes it, [render] keeps the
    Context a prepared one, [releaseResources] leaves the prepared state. *)
Lemma prepareToRender_keeps_invariant (rate : double) (block : Z)
      (n n' : LuaNode.t) :
  LuaNode.prepareToRender rate block n = Normal tt n' ->
  prepared_invariant n -> prepared_invariant n'.
Proof.
  unfold LuaNode.prepareToRender, LuaNode.on_active, LuaNode.deref,
    prepared_invariant.
  run. destruct (LuaNode.prepared n) eqn:Hp.
  - intros [= <-]. auto.
  - cbn [LuaNode.context LuaNode.set_rate_block LuaNode.sampleRate
         LuaNode.blockSize].
    destruct (LuaNode.context n) as [c|]; [|discriminate].
    destruct (Context.prepare rate block c) as [[] c'|w c'|] eqn:Hprep;
      try discriminate.
    intros [= <-] _ _. exists c'. split; [reflexivity|].
    cbn. intros Hr. rewrite (prepare_keeps_ready _ _ _ Hprep) in Hr.
    exact (prepare_prepares _ _ _ Hr Hprep).
Qed.


Lemma releaseResources_keeps_invariant (n n' : LuaNode.t) :
  LuaNode.releaseResources n = Normal tt n' ->
  prepared_invariant n -> prepared_invariant n'.
Proof.
  unfold LuaNode.releaseResources, LuaNode.on_active, LuaNode.deref,
    prepared_invariant.
  run. destruct (LuaNode.prepared n) eqn:Hp; cbn [negb].
  - cbn [LuaNode.context LuaNode.set_prepared].
    destruct (LuaNode.context n) as [c|]; [|discriminate].
    destruct (Context.release c) as [[] c'|w c'|]; try discriminate.
    intros [= <-] _. cbn. discriminate.
  - intros [= <-] _ Hp'. congruence.
Qed.








(** The same invariant when an exception leaves the sequential
    [loadScript] (raised by [node_prepare] of the new script before the
    swap, or by [node_release] of the old one after it). *)
Lemma loadScript_throws_keeps_invariant (text what : string) (n n' : LuaNode.t) :
  LuaNode.loadScript text n = Throws what n' ->
  prepared_invariant n -> prepared_invariant n'.
Proof.
  unfold LuaNode.loadScript. unfold bind at 1.
  pose proof (validate_keeps_state text n) as Hv.
  destruct (Context.validate text n) as [r n0|w n0|]; try discriminate.
  2: { intros [= _ <-]. now subst. }
  subst n0. destruct r as [|m]; cbn [failed]; [|discriminate].
  destruct (@load_returns text Context.new eq_refl) as [c1 Hload].
  unfold LuaNode.with_newContext, LuaNode.on_newContext, LuaNode.deref,
    LuaNode.on_node, LuaNode.swap.
  run. cbn [fst snd]. rewrite Hload.
  destruct (Context.loaded c1) eqn:Hl; cbn [wasOk failed negb].
  2: { cbn [fst snd]. rewrite (release_not_ready c1 Hl). discriminate. }
  cbn [fst snd LuaNode.prepared LuaNode.set_scripts LuaNode.sampleRate
       LuaNode.blockSize LuaNode.context LuaNode.set_context].
  unfold prepared_invariant.
  destruct (LuaNode.prepared n) eqn:Hp;
    cbn [fst snd LuaNode.prepared LuaNode.set_scripts LuaNode.sampleRate
         LuaNode.blockSize LuaNode.context LuaNode.set_context].
  - destruct (Context.prepare (LuaNode.sampleRate n) (LuaNode.blockSize n) c1)
      as [[] c2|w c2|] eqn:Hprep;
      cbn [fst snd LuaNode.context LuaNode.set_scripts];
      try discriminate.
    + destruct (LuaNode.context n) as [old|]; cbn [fst snd]; [|discriminate].
      destruct (Context.release old) as [[] old'|w old'|]; cbn [fst snd];
        try discriminate.
      intros [= _ <-] _ _. exists c2. split; [reflexivity|]. intros _.
      exact (prepare_prepares _ _ _ Hl Hprep).
    + intros [= _ <-] Hinv. cbn. rewrite Hp. intros _. now apply Hinv.
  - cbn [fst snd LuaNode.context LuaNode.set_scripts].
    destruct (LuaNode.context n) as [old|]; cbn [fst snd]; [|discriminate].
    destruct (Context.release old) as [[] old'|w old'|]; cbn [fst snd];
      try discriminate.
    intros [= _ <-] _. cbn. rewrite Hp. discriminate.
Qed.


(** ** [LuaNode::setState] *)

(** C9, as the code has it.  [setState] does not look at the result of
    [loadScript]: no change message is sent for a blob that is not a valid
    tree, and exactly one is sent for a valid tree whenever [loadScript]
    returns, with a success or with a failure. *)
Theorem setState_notifies_whatever_the_result
        (data : MemoryData) (n : LuaNode.t) :
  (readFromData data = None -> LuaNode.setState data n = Normal tt n) /\
  (forall state r n1,
      readFromData data = Some state ->
      LuaNode.loadScript (LuaNode.property state "script") n = Normal r n1 ->
      exists n2,
        LuaNode.setState data n = Normal tt n2 /\
        LuaNode.changeMessages n2 = S (LuaNode.changeMessages n) /\
        LuaNode.context n2 = LuaNode.context n1 /\
        LuaNode.script n2 = LuaNode.script n1).
Proof.
  unfold LuaNode.setState. split.
  - intros ->. reflexivity.
  - intros state r n1 -> H. unfold bind. rewrite H.
    eexists. split; [reflexivity|]. cbn.
    split; [|split; reflexivity]. f_equal. destruct r.
    + apply loadScript_ok_members in H. tauto.
    + apply loadScript_failed_keeps_node in H. now subst.
Qed.

(** ** [LuaNode::createPorts] *)

(** C10, as the code has it.  The list is cleared before the active
    Context fills it: what [createPorts] leaves does not depend on what
    the list held (nothing accumulates).  A second call gives the list of
    the first one when the first one left the active Context, interpreter
    state included, as it was. *)
Theorem createPorts_from_scratch (n : LuaNode.t) :
  (forall ps, LuaNode.context n <> None ->
              LuaNode.createPorts (LuaNode.set_ports ps n)
              = LuaNode.createPorts n) /\
  (forall n1, LuaNode.createPorts n = Normal tt n1 ->
              LuaNode.context n1 = LuaNode.context n ->
              LuaNode.createPorts n1 = Normal tt n1).
Proof.
  unfold LuaNode.createPorts, kv.clearQuick. run. split.
  - intros ps Hc. cbn [LuaNode.context LuaNode.set_ports].
    destruct (LuaNode.context n) as [c|]; [|congruence].
    match goal with |- context [Context.createPorts ?x] =>
      destruct (Context.createPorts x) as [[] [c' ps']|w [c' ps']|] end;
      reflexivity.
  - intros n1. destruct (LuaNode.context n) as [c|] eqn:Hc.
    + match goal with |- context [Context.createPorts ?x] =>
        destruct (Context.createPorts x) as [[] [c' ps']|w [c' ps']|] eqn:E end;
        try discriminate.
      intros [= <-]. cbn [LuaNode.context LuaNode.set_ports LuaNode.set_context].
      intros [= ->]. rewrite E. reflexivity.
    + intros [= <-] _. rewrite Hc. reflexivity.
Qed.

(** ** Port derivation *)

Lemma param_loop_declared (params : object) (st : lua_State)
      (decls : list (string * string * bool)) :
  forall i index inChan outChan ports,
    (forall k d, nth_error decls k = Some d ->
                 Context.read_param params (i + Z.of_nat k) st = inr d) ->
    Context.param_loop (List.length decls) params st i index inChan outChan ports
    = control_ports decls index inChan outChan ports.
Proof.
  induction decls as [|[[name sym] isInput] rest IH]; intros i index inChan outChan ports H.
  - reflexivity.
  - cbn [List.length Context.param_loop control_ports].
    pose proof (H O _ eq_refl) as H0. cbn in H0. rewrite Z.add_0_r in H0.
    rewrite H0. apply IH. intros k d Hk.
    replace (i + 1 + Z.of_nat k) with (i + Z.of_nat (S k)) by lia.
    apply H. exact Hk.
Qed.

(** The list [createPorts] makes when the script declares [counts] and
    [decls]. *)
Lemma createPorts_declared (c : Context.t) (counts : Z * Z * Z * Z)
      (decls : list (string * string * bool)) (st1 st2 : lua_State)
      (ports : kv.PortList) :
  Context.ready c = true ->
  io_declared (Context.state c) counts st1 ->
  params_declared st1 decls st2 ->
  Context.createPorts (c, ports)
  = Normal tt (Context.set_state st2 c, declared_ports counts decls ports).
Proof.
  intros Hr Hio Hp.
  unfold Context.createPorts, Context.addIOPorts, Context.addParameters,
    Context.on_context, Context.on_ports, Context.in_state.
  run. cbn [fst snd]. rewrite Hr. cbn [negb].
  destruct c as [st rf rsf nm ld].
  cbn [fst snd Context.state Context.set_state] in *.
  assert (Hparams :
    forall ports1,
      (if valid (sol_global "node_params" st1)
       then
         fun s : Context.t * kv.PortList =>
           match
             match
               match
                 match
                   match call (sol_global "node_params" st1)
                              (Context.state (fst s)) with
                   | Returned a0 s'0 => Normal a0 s'0
                   | Raised what s'0 => Throws what s'0
                   end
                 with
                 | Normal a0 t' => Normal a0 (Context.set_state t' (fst s))
                 | Throws what t' => Throws what (Context.set_state t' (fst s))
                 | Crash => Crash
                 end
               with
               | Normal a0 t' => Normal a0 (t', snd s)
               | Throws what t' => Throws what (t', snd s)
               | Crash => Crash
               end
             with
             | Normal a0 s'0 =>
                 match table_size a0 (Context.state (fst s'0)) with
                 | inl what =>
                     fun s0 : Context.t * kv.PortList => Throws what s0
                 | inr sz =>
                     fun s0 : Context.t * kv.PortList =>
                       Normal tt
                         (fst s0,
                          Context.param_loop sz a0 (Context.state (fst s'0)) 0
                            (kv.size ports1) 0 0 (snd s0))
                 end s'0
             | Throws what s'0 => Throws what s'0
             | Crash => Crash
             end
           with
           | Normal a0 s'0 => Normal a0 s'0
           | Throws _ s'0 => Normal tt s'0
           | Crash => Crash
           end
       else fun s : Context.t * kv.PortList => Normal tt s)
        (Context.mk st1 rf rsf nm ld, ports1)
      = Normal tt (Context.mk st2 rf rsf nm ld,
                   control_ports decls (kv.size ports1) 0 0 ports1)).
  { intros ports1. inversion Hp as [Hv|params st' decls' Hv Hcall Hsize Hread]; subst.
    - rewrite Hv. reflexivity.
    - rewrite Hv. cbn [fst snd Context.state Context.set_state].
      rewrite Hcall. cbn [fst snd Context.state Context.set_state].
      rewrite Hsize. cbn [fst snd].
      rewrite param_loop_declared; [reflexivity|].
      intros k d Hk. rewrite Z.add_0_l. now apply Hread. }
  inversion Hio as [Hv|t st' Hv Hcall]; subst.
  - rewrite Hv. cbn [fst snd]. apply Hparams.
  - rewrite Hv. cbn [fst snd Context.state Context.set_state].
    rewrite Hcall. cbn [fst snd Context.state Context.set_state].
    unfold declared_ports.
    destruct (Context.read_io_counts t st1) as [[[a b] m] n].
    cbn [fst snd Context.state]. apply Hparams.
Qed.

(** ** Numbering *)

Lemma numbered_nil : numbered [].
Proof. intros [|x before] p after E; discriminate E. Qed.

Lemma count_group_snoc (g : kv.PortType * bool) (ports : kv.PortList) (p : kv.Port) :
  count_group g (ports ++ [p])
  = (count_group g ports + (if group_eq_dec (group p) g then 1 else 0))%nat.
Proof.
  unfold count_group. rewrite map_app, count_occ_app. cbn.
  destruct (group_eq_dec (group p) g); reflexivity.
Qed.

Lemma numbered_snoc (ports : kv.PortList) (p : kv.Port) :
  numbered ports ->
  kv.index p = Z.of_nat (List.length ports) ->
  kv.channel p = Z.of_nat (count_group (group p) ports) ->
  numbered (ports ++ [p]).
Proof.
  intros Hn Hi Hc before q after E.
  destruct after as [|x after] using rev_ind.
  - apply app_inj_tail in E as [-> ->]. split; assumption.
  - clear IHafter.
    change (before ++ q :: after ++ [x])%list
      with (before ++ (q :: after) ++ [x])%list in E.
    rewrite app_assoc in E. apply app_inj_tail in E as [E _].
    exact (Hn before q after E).
Qed.

Lemma io_loop_spec (ty : kv.PortType) (input : bool) (slug nm : string)
      (count : nat) :
  forall i index channel ports,
    numbered ports ->
    index = Z.of_nat (List.length ports) ->
    channel = Z.of_nat (count_group (ty, input) ports) ->
    exists added,
      Context.io_loop count ty input slug nm i index channel ports
      = (Z.of_nat (List.length (ports ++ added)), (ports ++ added)%list) /\
      numbered (ports ++ added) /\
      map group added = repeat (ty, input) count.
Proof.
  induction count as [|count IH]; intros i index channel ports Hn Hi Hc.
  - exists []. rewrite app_nil_r. cbn. subst. auto.
  - cbn [Context.io_loop]. unfold kv.add.
    set (p := kv.mkPort ty index channel (append_int slug (i + 1))
                        (append_int nm (i + 1)) input).
    destruct (IH (i + 1) (index + 1) (channel + 1) (ports ++ [p])%list)
      as (added & E & Hn' & Hg).
    + apply numbered_snoc; subst; auto.
    + rewrite length_app. cbn. lia.
    + rewrite count_group_snoc. subst p. unfold group; cbn [kv.type kv.isInput].
      destruct (group_eq_dec (ty, input) (ty, input)); [lia|congruence].
    + exists (p :: added). rewrite <- app_assoc in E, Hn'.
      split; [exact E|]. split; [exact Hn'|].
      cbn [map repeat]. rewrite Hg. reflexivity.
Qed.

Lemma control_ports_spec (decls : list (string * string * bool)) :
  forall index inChan outChan ports,
    numbered ports ->
    index = Z.of_nat (List.length ports) ->
    inChan = Z.of_nat (count_group (kv.Control, true) ports) ->
    outChan = Z.of_nat (count_group (kv.Control, false) ports) ->
    exists added,
      control_ports decls index inChan outChan ports = (ports ++ added)%list /\
      numbered (ports ++ added) /\
      map group added = map (fun d => (kv.Control, snd d)) decls.
Proof.
  induction decls as [|[[name sym] isInput] rest IH];
    intros index inChan outChan ports Hn Hi Hin Hout.
  - exists []. rewrite app_nil_r. auto.
  - cbn [control_ports]. unfold kv.add.
    set (p := kv.mkPort kv.Control index (if isInput then inChan else outChan)
                        sym name isInput).
    destruct (IH (index + 1)
                 (if isInput then inChan + 1 else inChan)
                 (if isInput then outChan else outChan + 1)
                 (ports ++ [p])%list)
      as (added & E & Hn' & Hg).
    + apply numbered_snoc; auto.
      subst p. unfold group; cbn [kv.type kv.isInput kv.channel].
      destruct isInput; assumption.
    + rewrite length_app. cbn. lia.
    + rewrite count_group_snoc. subst p. unfold group; cbn [kv.type kv.isInput].
      destruct isInput;
        destruct (group_eq_dec _ _); try congruence; lia.
    + rewrite count_group_snoc. subst p. unfold group; cbn [kv.type kv.isInput].
      destruct isInput;
        destruct (group_eq_dec _ _); try congruence; lia.
    + exists (p :: added). rewrite <- app_assoc in E, Hn'.
      split; [exact E|]. split; [exact Hn'|].
      cbn [map repeat]. rewrite Hg. reflexivity.
Qed.

Lemma count_group_absent (g : kv.PortType * bool) (ports : kv.PortList) :
  ~ In g (map group ports) -> 0 = Z.of_nat (count_group g ports).
Proof.
  intros H. unfold count_group.
  apply (count_occ_not_In group_eq_dec) in H. now rewrite H.
Qed.

Ltac absent :=
  apply count_group_absent; rewrite ?map_app;
  repeat match goal with H : map group _ = _ |- _ => rewrite H; clear H end;
  let H := fresh in
  intros H; repeat (apply in_app_or in H as [H|H]);
  try (apply repeat_spec in H; discriminate H);
  try (apply in_map_iff in H as (? & H & _); discriminate H);
  try contradiction.

(** C4.  A ready Context whose script declares [a] audio inputs, [b]
    audio outputs, [m] MIDI inputs, [n] MIDI outputs and the parameters
    [decls] makes, of an empty list, a list of [a + b + m + n + p] ports
    ([p] the number of parameters), in the order Audio in, Audio out,
    MIDI in, MIDI out, Control; the index of each port is its position in
    the list, from 0, and its channel is its position among the ports of
    its type and direction, from 0. *)
Theorem createPorts_layout (c : Context.t) (a b m n : nat)
        (decls : list (string * string * bool)) (st1 st2 : lua_State) :
  Context.ready c = true ->
  io_declared (Context.state c)
              (Z.of_nat a, Z.of_nat b, Z.of_nat m, Z.of_nat n) st1 ->
  params_declared st1 decls st2 ->
  exists c' ports,
    Context.createPorts (c, []) = Normal tt (c', ports) /\
    List.length ports = (a + b + m + n + List.length decls)%nat /\
    map group ports
    = repeat (kv.Audio, true) a ++ repeat (kv.Audio, false) b ++
      repeat (kv.Midi, true) m ++ repeat (kv.Midi, false) n ++
      map (fun d => (kv.Control, snd d)) decls /\
    numbered ports.
Proof.
  intros Hr Hio Hp.
  exists (Context.set_state st2 c), (declared_ports (Z.of_nat a, Z.of_nat b, Z.of_nat m, Z.of_nat n) decls []).
  split; [now apply createPorts_declared with (st1 := st1)|].
  unfold declared_ports, Context.add_io_ports. rewrite !Nat2Z.id.
  destruct (@io_loop_spec kv.Audio true "in_" "In " a 0 0 0 []
              numbered_nil eq_refl eq_refl) as (g1 & E1 & N1 & G1).
  cbn [app] in E1, N1. rewrite E1.
  destruct (@io_loop_spec kv.Audio false "out_" "Out " b 0
              (Z.of_nat (List.length g1)) 0 g1 N1 eq_refl)
    as (g2 & E2 & N2 & G2); [absent|]. rewrite E2.
  destruct (@io_loop_spec kv.Midi true "midi_in_" "MIDI In " m 0
              (Z.of_nat (List.length (g1 ++ g2))) 0 (g1 ++ g2) N2 eq_refl)
    as (g3 & E3 & N3 & G3); [absent|]. rewrite E3.
  destruct (@io_loop_spec kv.Midi false "midi_out_" "MIDI Out " n 0
              (Z.of_nat (List.length ((g1 ++ g2) ++ g3))) 0
              ((g1 ++ g2) ++ g3) N3 eq_refl)
    as (g4 & E4 & N4 & G4); [absent|]. rewrite E4.
  destruct (@control_ports_spec decls
              (kv.size (((g1 ++ g2) ++ g3) ++ g4)) 0 0
              (((g1 ++ g2) ++ g3) ++ g4) N4 eq_refl)
    as (g5 & E5 & N5 & G5); [absent|absent|]. rewrite E5.
  assert (Hg : map group ((((g1 ++ g2) ++ g3) ++ g4) ++ g5)
               = repeat (kv.Audio, true) a ++ repeat (kv.Audio, false) b ++
                 repeat (kv.Midi, true) m ++ repeat (kv.Midi, false) n ++
                 map (fun d => (kv.Control, snd d)) decls).
  { rewrite !map_app, G1, G2, G3, G4, G5, <- !app_assoc. reflexivity. }
  split; [|split; [exact Hg|exact N5]].
  rewrite <- (length_map group), Hg, !length_app, !repeat_length, length_map.
  lia.
Qed.

(** C7, with the count put right.  When Lua gives the built-in script
    its meaning (2 audio inputs, 2 audio outputs, 1 MIDI input, 1 MIDI
    output and the one parameter "Volume", an input), [createPorts] makes
    7 ports, with the symbols in_1, in_2, out_1, out_2, midi_in_1,
    midi_out_1, volume in this order. *)
Theorem default_script_ports (c : Context.t) (st1 st2 : lua_State) :
  Context.load defaultScript Context.new = Normal ok c ->
  io_declared (Context.state c) (2, 2, 1, 1) st1 ->
  params_declared st1 [("Volume", "volume", true)] st2 ->
  exists c' ports,
    Context.createPorts (c, []) = Normal tt (c', ports) /\
    List.length ports = 7%nat /\
    symbols ports
    = ["in_1"; "in_2"; "out_1"; "out_2"; "midi_in_1"; "midi_out_1"; "volume"].
Proof.
  intros Hload Hio Hp.
  assert (Hr : Context.ready c = true).
  { destruct (@load_returns defaultScript Context.new eq_refl) as [c0 E].
    rewrite E in Hload. injection Hload as Hres <-.
    unfold Context.ready. destruct (Context.loaded c0); [reflexivity|discriminate]. }
  eexists _, _.
  split; [apply createPorts_declared with (st1 := st1); eassumption|].
  split; reflexivity.
Qed.

(** ** Errors raised while the ports are derived *)

(** An error raised by [node_params], or by a read of the table it
    returned, is caught in [addParameters]. *)
Lemma addParameters_returns (s : Context.t * kv.PortList) :
  exists s', Context.addParameters s = Normal tt s'.
Proof.
  unfold Context.addParameters, Context.on_context, Context.on_ports,
    Context.in_state.
  run. cases; eexists; reflexivity.
Qed.

(** An error raised by [node_io_ports] is not: the call stands before
    the [try] of [addIOPorts], and the error leaves [createPorts]. *)
Lemma createPorts_propagates (c : Context.t) (ports : kv.PortList)
      (what : string) (st' : lua_State) :
  Context.ready c = true ->
  valid (sol_global "node_io_ports" (Context.state c)) = true ->
  call (sol_global "node_io_ports" (Context.state c)) (Context.state c)
  = Raised what st' ->
  Context.createPorts (c, ports) = Throws what (Context.set_state st' c, ports).
Proof.
  intros Hr Hv Hcall.
  unfold Context.createPorts, Context.addIOPorts, Context.on_context,
    Context.in_state.
  run. cbn [fst snd]. rewrite Hr. cbn [negb fst snd]. rewrite Hv.
  cbn [fst snd]. rewrite Hcall. reflexivity.
Qed.

End Properties.

(* ================================================================== *)
(** * Further properties of the Context and of the node *)

Section Coverage.

Context {RT : Runtime}.

Ltac run :=
  unfold bind, ret, get, modify, try_catch, zoom, lua, with_local, noexcept in *.

Ltac cases :=
  cbn [fst snd];
  repeat match goal with
         | |- context [match ?x with _ => _ end] =>
             lazymatch x with
             | context [match _ with _ => _ end] => fail
             | _ => destruct x eqn:?; cbn [fst snd] in *
             end
         end.

(** ** [Context::load] *)

(** X1.  [load] never lets an interpreter error escape: it returns a
    [Result] for every text and every Context, a success leaves the Context
    ready, and on a Context that was not ready the result is a success
    exactly when the Context is ready afterwards. *)
Theorem load_never_throws (text : string) (c : Context.t) :
  exists r c',
    Context.load text c = Normal r c' /\
    (r = ok -> Context.ready c' = true) /\
    (Context.ready c = false -> (r = ok <-> Context.ready c' = true)).
Proof.
  destruct (Context.loaded c) eqn:Hc.
  - exists (fail "Script already loaded"), c. split.
    + unfold Context.load, Context.ready. run. rewrite Hc. reflexivity.
    + split; [discriminate|]. unfold Context.ready. congruence.
  - destruct (load_returns text c Hc) as [c' E].
    exists (if Context.loaded c' then ok else fail "Couldn't load Lua script"), c'.
    split; [exact E|]. unfold Context.ready.
    destruct (Context.loaded c'); repeat split; auto; discriminate.
Qed.

(** X2.  A Context is load-once: after a successful [load], a second
    [load], of any text, fails with "Script already loaded" and leaves the
    Context as the first one made it. *)
Theorem load_once (text1 text2 : string) (c c1 : Context.t) :
  Context.load text1 c = Normal ok c1 ->
  Context.load text2 c1 = Normal (fail "Script already loaded") c1.
Proof.
  intros H.
  assert (Hl : Context.loaded c1 = true).
  { destruct (Context.loaded c) eqn:Hc.
    - revert H. unfold Context.load, Context.ready. run. rewrite Hc. discriminate.
    - destruct (load_returns text1 c Hc) as [c' E]. rewrite E in H.
      injection H as Hr <-. destruct (Context.loaded c'); [reflexivity|discriminate]. }
  unfold Context.load, Context.ready. run. rewrite Hl. reflexivity.
Qed.

(** X3.  A Context whose [load] failed is inert: [prepare], [release] and
    [createPorts] return at once and [render] leaves the buffers alone;
    none of them calls into the script or changes the Context or the
    list. *)
Theorem failed_load_leaves_inert_context
        (text what : string) (c : Context.t) :
  Context.load text Context.new = Normal (fail what) c ->
  (forall rate block, Context.prepare rate block c = Normal tt c) /\
  Context.release c = Normal tt c /\
  (forall ports, Context.createPorts (c, ports) = Normal tt (c, ports)) /\
  (forall audio midi, Context.render audio midi c = Normal (audio, midi) c).
Proof.
  intros H.
  assert (Hl : Context.loaded c = false).
  { destruct (@load_returns _ text Context.new eq_refl) as [c' E]. rewrite E in H.
    injection H as Hr <-. destruct (Context.loaded c'); [discriminate|reflexivity]. }
  repeat split; intros;
    unfold Context.prepare, Context.release, Context.createPorts, Context.render,
      Context.ready; run; cbn [fst snd]; rewrite Hl; reflexivity.
Qed.

(** ** [Context::validate] *)

(** X4.  [validate] catches every error of its dry run: for every text it
    returns a [Result], with the caller's state untouched, and the failure
    of the [load] of its Context is returned as it is. *)
Theorem validate_never_throws {S} (text : string) (s : S) :
  (exists r, Context.validate text s = Normal r s) /\
  (forall what c,
      isEmpty text = false ->
      Context.load text Context.new = Normal (fail what) c ->
      Context.validate text s = Normal (fail what) s).
Proof.
  split; [apply validate_returns|].
  intros what c Ht H. unfold Context.validate. rewrite Ht.
  unfold with_local, bind at 1. rewrite H. reflexivity.
Qed.

(** X5.  An error raised by [node_render] in the dry run makes [validate]
    fail with the message of that error, and [loadScript] of the text
    returns the same failure and leaves the node as it was. *)
Theorem validate_reports_render_error
        (text what : string) (c c1 c2 c3 : Context.t) (ports : kv.PortList)
        (n : LuaNode.t) :
  isEmpty text = false ->
  Context.load text Context.new = Normal ok c ->
  Context.createPorts_local c = Normal ports c1 ->
  Context.prepare (44100 # 1) 1024 c1 = Normal tt c2 ->
  valid (Context.renderf c2) = true ->
  Context.in_state (call_render (Context.renderf c2)
                                (dummy_audio ports) (dummy_midi ports)) c2
  = Throws what c3 ->
  Context.validate text n = Normal (fail what) n /\
  LuaNode.loadScript text n = Normal (fail what) n.
Proof.
  intros Ht Hload Hports Hprep Hvalid Hrender.
  assert (Hl : Context.loaded c = true).
  { destruct (@load_returns _ text Context.new eq_refl) as [c' E].
    rewrite E in Hload. injection Hload as Hr <-.
    destruct (Context.loaded c'); [reflexivity|discriminate]. }
  assert (Hv : forall S (s : S), Context.validate text s = Normal (fail what) s).
  { intros S s. unfold Context.validate. rewrite Ht.
    unfold with_local, bind at 1. rewrite Hload. cbn [failed].
    unfold Context.ready. run. rewrite Hl. cbn [negb].
    rewrite Hports, Hprep, Hvalid.
    unfold dummy_audio, dummy_midi in Hrender. cbv zeta in *.
    rewrite Hrender. reflexivity. }
  split; [apply Hv|].
  unfold LuaNode.loadScript, bind. rewrite Hv. reflexivity.
Qed.

(** X6.  [validate] accepts a text exactly when the text is not empty
    and the whole dry run goes through on a new Context: [load] succeeds,
    [createPorts] returns, [prepare] at 44.1 kHz and 1024 frames returns,
    the render entry point, when there is one, returns on the dummy
    buffers, and [release] returns. *)
Theorem validate_ok_iff {S} (text : string) (s : S) :
  Context.validate text s = Normal ok s <->
  isEmpty text = false /\
  exists c ports c1 c2 c3 c4,
    Context.load text Context.new = Normal ok c /\
    Context.createPorts_local c = Normal ports c1 /\
    Context.prepare (44100 # 1) 1024 c1 = Normal tt c2 /\
    dry_render ports c2 c3 /\
    Context.release c3 = Normal tt c4.
Proof.
  unfold Context.validate, dry_render, dummy_audio, dummy_midi.
  destruct (isEmpty text) eqn:Ht.
  { split; [discriminate|]. intros [H _]. discriminate H. }
  destruct (@load_returns _ text Context.new eq_refl) as [c Hload].
  unfold with_local, bind at 1. rewrite Hload.
  destruct (Context.loaded c) eqn:Hl; cbn [failed].
  2: { split; [discriminate|].
       intros (_ & c0 & ? & ? & ? & ? & ? & [=] & _). }
  unfold Context.ready. run. rewrite Hl. cbn [negb]. cbv zeta.
  destruct (Context.createPorts_local c) as [ports c1|w c1|] eqn:Hports.
  2, 3: split; [discriminate|];
        intros (_ & c0 & ? & ? & ? & ? & ? & [= <-] & E & _);
        rewrite Hports in E; discriminate E.
  destruct (Context.prepare (44100 # 1) 1024 c1) as [[] c2|w c2|] eqn:Hprep.
  2, 3: split; [discriminate|];
        intros (_ & c0 & ? & ? & ? & ? & ? & [= <-] & E & E' & _);
        rewrite Hports in E; injection E as <- <-;
        rewrite Hprep in E'; discriminate E'.
  destruct (valid (Context.renderf c2)) eqn:Hvalid.
  - match goal with |- context [Context.in_state ?f c2] =>
      destruct (Context.in_state f c2) as [bufs c3|w c3|] eqn:Hrender end.
    2, 3: split; [discriminate|];
          intros (_ & c0 & ? & ? & ? & c3' & ? & [= <-] & E & E' & Hdry & _);
          rewrite Hports in E; injection E as <- <-;
          rewrite Hprep in E'; injection E' as <-;
          destruct Hdry as [(_ & ? & E'')|(E'' & _)]; congruence.
    destruct (Context.release c3) as [[] c4|w c4|] eqn:Hrel.
    + split; [|reflexivity]. intros _. split; [reflexivity|].
      exists c, ports, c1, c2, c3, c4.
      split; [reflexivity|]. split; [exact Hports|]. split; [exact Hprep|].
      split; [|exact Hrel].
      left. split; [exact Hvalid|]. exists bufs. exact Hrender.
    + split; [discriminate|].
      intros (_ & c0 & ? & ? & ? & c3' & ? & [= <-] & E & E' & Hdry & Hrel').
      rewrite Hports in E; injection E as <- <-.
      rewrite Hprep in E'; injection E' as <-.
      destruct Hdry as [(_ & ? & E'')|(E'' & _)]; congruence.
    + split; [discriminate|].
      intros (_ & c0 & ? & ? & ? & c3' & ? & [= <-] & E & E' & Hdry & Hrel').
      rewrite Hports in E; injection E as <- <-.
      rewrite Hprep in E'; injection E' as <-.
      destruct Hdry as [(_ & ? & E'')|(E'' & _)]; congruence.
  - destruct (Context.release c2) as [[] c4|w c4|] eqn:Hrel.
    + split; [|reflexivity]. intros _. split; [reflexivity|].
      exists c, ports, c1, c2, c2, c4.
      split; [reflexivity|]. split; [exact Hports|]. split; [exact Hprep|].
      split; [|exact Hrel].
      right. split; [exact Hvalid|reflexivity].
    + split; [discriminate|].
      intros (_ & c0 & ? & ? & ? & c3' & ? & [= <-] & E & E' & Hdry & Hrel').
      rewrite Hports in E; injection E as <- <-.
      rewrite Hprep in E'; injection E' as <-.
      destruct Hdry as [(E'' & _)|(_ & ->)]; congruence.
    + split; [discriminate|].
      intros (_ & c0 & ? & ? & ? & c3' & ? & [= <-] & E & E' & Hdry & Hrel').
      rewrite Hports in E; injection E as <- <-.
      rewrite Hprep in E'; injection E' as <-.
      destruct Hdry as [(E'' & _)|(_ & ->)]; congruence.
Qed.

(** No exception leaves [Context::render]. *)
Lemma render_unguarded_no_throw (audio : AudioSampleBuffer) (midi : MidiPipe)
      (c : Context.t) :
  forall what c', Context.render audio midi c <> Throws what c'.
Proof.
  intros what c'. unfold Context.render, Context.in_state. run.
  destruct (Context.loaded c); [|discriminate].
  destruct (Context.renderstdf c) as [f|]; [|discriminate].
  destruct (call_render f audio midi (Context.state c)); discriminate.
Qed.

(** ** [LuaNode::loadScript] *)

(** Every way [loadScript] can end, and the node it leaves: the node as
    it was (a failure), the node with the new text and the old Context
    (an exception of [node_prepare] before the swap), or the node with the
    new text and the new Context. *)
Lemma loadScript_shape (text : string) (n : LuaNode.t) :
  match LuaNode.loadScript text n with
  | Normal r n' =>
      (failed r = true /\ n' = n) \/
      (r = ok /\ exists c2, n' = LuaNode.set_context (Some c2) (LuaNode.set_scripts text n))
  | Throws _ n' =>
      n' = n \/ n' = LuaNode.set_scripts text n \/
      exists c2, n' = LuaNode.set_context (Some c2) (LuaNode.set_scripts text n)
  | Crash => True
  end.
Proof.
  destruct (LuaNode.loadScript text n) as [r n'|w n'|] eqn:H; [| |exact I].
  - destruct r as [|what].
    + right. split; [reflexivity|].
      apply loadScript_ok_inv in H as (c1 & c2 & _ & _ & ->). now exists c2.
    + left. split; [reflexivity|]. now apply loadScript_failed_keeps_node in H.
  - revert H. unfold LuaNode.loadScript. unfold bind at 1.
    pose proof (validate_keeps_state text n) as Hv.
    destruct (Context.validate text n) as [r n0|w0 n0|]; try discriminate.
    2: { intros [= _ <-]. now left. }
    subst n0. destruct r as [|m]; cbn [failed]; [|discriminate].
    destruct (@load_returns _ text Context.new eq_refl) as [c1 Hload].
    unfold LuaNode.with_newContext, LuaNode.on_newContext, LuaNode.deref,
      LuaNode.on_node, LuaNode.swap.
    run. cbn [fst snd]. rewrite Hload.
    destruct (Context.loaded c1) eqn:Hl; cbn [wasOk failed negb].
    2: { cbn [fst snd]. rewrite (release_not_ready c1 Hl). discriminate. }
    cbn [fst snd LuaNode.prepared LuaNode.set_scripts LuaNode.sampleRate
         LuaNode.blockSize LuaNode.context LuaNode.set_context].
    destruct (LuaNode.prepared n);
      cbn [fst snd LuaNode.prepared LuaNode.set_scripts LuaNode.sampleRate
           LuaNode.blockSize LuaNode.context LuaNode.set_context].
    + destruct (Context.prepare (LuaNode.sampleRate n) (LuaNode.blockSize n) c1)
        as [[] c2|w2 c2|];
        cbn [fst snd LuaNode.context LuaNode.set_scripts]; try discriminate.
      * destruct (LuaNode.context n) as [old|]; cbn [fst snd]; [|discriminate].
        destruct (Context.release old) as [[] old'|w3 old'|]; cbn [fst snd];
          try discriminate.
        intros [= _ <-]. right. right. now exists c2.
      * intros [= _ <-]. right. now left.
    + cbn [fst snd LuaNode.context LuaNode.set_scripts].
      destruct (LuaNode.context n) as [old|]; cbn [fst snd]; [|discriminate].
      destruct (Context.release old) as [[] old'|w3 old'|]; cbn [fst snd];
        try discriminate.
      intros [= _ <-]. right. right. now exists c1.
Qed.

(** X7.  [loadScript] changes the script texts and the active Context and
    nothing else: however it ends (with a result or by an exception), the
    port list of the node is the one from before (the ports of a new script
    appear only with the next [createPorts]), and so are [prepared], the
    sample rate, the block size and the count of change messages. *)
Theorem loadScript_leaves_ports_alone (text : string) (n n' : LuaNode.t) :
  ends_in (LuaNode.loadScript text) n n' ->
    LuaNode.ports n' = LuaNode.ports n /\
    LuaNode.prepared n' = LuaNode.prepared n /\
    LuaNode.sampleRate n' = LuaNode.sampleRate n /\
    LuaNode.blockSize n' = LuaNode.blockSize n /\
    LuaNode.changeMessages n' = LuaNode.changeMessages n.
Proof.
  intros H. pose proof (loadScript_shape text n) as Hs.
  destruct H as [[r H]|[what H]]; rewrite H in Hs.
  - destruct Hs as [[_ ->]|[_ [c2 ->]]]; repeat split.
  - destruct Hs as [->|[->|[c2 ->]]]; repeat split.
Qed.

(** X8.  [loadScript] commits the text before it prepares the new
    Context: on a prepared node, when [node_prepare] of a validated and
    loaded script raises an error at the node's sample rate and block size,
    the exception leaves [loadScript] with [script] and [draftScript]
    already set to the new text and the old Context still the active
    one. *)
Theorem loadScript_prepare_error_after_commit
        (text what : string) (n : LuaNode.t) (c1 c2 : Context.t) :
  LuaNode.prepared n = true ->
  Context.validate text n = Normal ok n ->
  Context.load text Context.new = Normal ok c1 ->
  Context.prepare (LuaNode.sampleRate n) (LuaNode.blockSize n) c1 = Throws what c2 ->
  exists n',
    LuaNode.loadScript text n = Throws what n' /\
    LuaNode.script n' = text /\ LuaNode.draftScript n' = text /\
    LuaNode.context n' = LuaNode.context n.
Proof.
  intros Hp Hv Hload Hprep.
  exists (LuaNode.set_scripts text n). split; [|repeat split].
  unfold LuaNode.loadScript. unfold bind at 1. rewrite Hv. cbn [failed].
  unfold LuaNode.with_newContext, LuaNode.on_newContext, LuaNode.deref,
    LuaNode.on_node, LuaNode.swap.
  run. cbn [fst snd]. rewrite Hload. cbn [wasOk failed negb fst snd].
  cbn [LuaNode.prepared LuaNode.set_scripts LuaNode.sampleRate LuaNode.blockSize].
  rewrite Hp. cbn [fst snd]. rewrite Hprep. reflexivity.
Qed.

Lemma loadScript_ok_validated (text : string) (n n' : LuaNode.t) :
  LuaNode.loadScript text n = Normal ok n' ->
  Context.validate text n = Normal ok n.
Proof.
  unfold LuaNode.loadScript. unfold bind at 1.
  pose proof (validate_keeps_state text n) as Hv.
  destruct (Context.validate text n) as [r n0|w0 n0|]; try discriminate.
  subst n0. destruct r; [reflexivity|]. cbn [failed]. discriminate.
Qed.

(** X9.  What [loadScript] installs has passed [validate]: when it
    returns a success, [validate] accepts the text, [script] and
    [draftScript] are the text, and on a node that is not prepared the
    active Context is the one a new Context becomes by [load] of the text,
    with no call of [node_prepare]. *)
Theorem loadScript_installs_validated (text : string) (n n' : LuaNode.t) :
  LuaNode.loadScript text n = Normal ok n' ->
  Context.validate text n = Normal ok n /\
  LuaNode.script n' = text /\ LuaNode.draftScript n' = text /\
  (LuaNode.prepared n = false ->
   exists c1, Context.load text Context.new = Normal ok c1 /\
              LuaNode.context n' = Some c1).
Proof.
  intros H. split.
  - now apply loadScript_ok_validated in H.
  - apply loadScript_ok_inv in H as (c1 & c2 & Hload & Hprep & ->).
    repeat split. intros Hp. cbn. rewrite Hp in Hprep. injection Hprep as <-.
    now exists c1.
Qed.

(** ** [prepareToRender], [releaseResources] and [render] *)

(** X10.  [prepareToRender] prepares once: when it returns, the node is
    prepared, and a further [prepareToRender], with whatever sample rate and
    block size, returns at once and changes nothing (a new rate is taken
    only after [releaseResources]).  On a node that was not prepared the
    first call stores the rate and the block size and runs [prepare], with
    these values, on the active Context. *)
Theorem prepareToRender_once (rate : double) (block : Z) (n n' : LuaNode.t) :
  LuaNode.prepareToRender rate block n = Normal tt n' ->
  LuaNode.prepared n' = true /\
  (forall rate2 block2, LuaNode.prepareToRender rate2 block2 n' = Normal tt n') /\
  (LuaNode.prepared n = false ->
   LuaNode.sampleRate n' = rate /\ LuaNode.blockSize n' = block /\
   exists c c', LuaNode.context n = Some c /\
                Context.prepare rate block c = Normal tt c' /\
                LuaNode.context n' = Some c').
Proof.
  intros H.
  assert (Hp : LuaNode.prepared n' = true).
  { revert H. unfold LuaNode.prepareToRender, LuaNode.on_active, LuaNode.deref.
    run. destruct (LuaNode.prepared n) eqn:Hp; [now intros [= <-]|].
    cbn [LuaNode.context LuaNode.set_rate_block LuaNode.sampleRate LuaNode.blockSize].
    destruct (LuaNode.context n) as [c|]; [|discriminate].
    destruct (Context.prepare rate block c) as [[] c'|w c'|]; try discriminate.
    now intros [= <-]. }
  split; [exact Hp|]. split.
  - intros rate2 block2. unfold LuaNode.prepareToRender. run. now rewrite Hp.
  - intros Hn. revert H.
    unfold LuaNode.prepareToRender, LuaNode.on_active, LuaNode.deref.
    run. rewrite Hn.
    cbn [LuaNode.context LuaNode.set_rate_block LuaNode.sampleRate LuaNode.blockSize].
    destruct (LuaNode.context n) as [c|]; [|discriminate].
    destruct (Context.prepare rate block c) as [[] c'|w c'|] eqn:Hprep;
      try discriminate.
    intros [= <-]. repeat split. now exists c, c'.
Qed.

(** X11.  When [node_prepare] raises an error in [prepareToRender], the
    exception leaves the function after the sample rate and the block size
    were stored and before [prepared] is set: the node stays unprepared. *)
Theorem prepareToRender_error_stays_unprepared
        (rate : double) (block : Z) (what : string) (n n' : LuaNode.t) :
  LuaNode.prepareToRender rate block n = Throws what n' ->
  LuaNode.prepared n' = false /\
  LuaNode.sampleRate n' = rate /\ LuaNode.blockSize n' = block /\
  LuaNode.script n' = LuaNode.script n /\ LuaNode.ports n' = LuaNode.ports n.
Proof.
  unfold LuaNode.prepareToRender, LuaNode.on_active, LuaNode.deref.
  run. destruct (LuaNode.prepared n) eqn:Hp; [discriminate|].
  cbn [LuaNode.context LuaNode.set_rate_block LuaNode.sampleRate LuaNode.blockSize].
  destruct (LuaNode.context n) as [c|]; [|discriminate].
  destruct (Context.prepare rate block c) as [[] c'|w c'|]; try discriminate.
  intros [= _ <-]. cbn. auto.
Qed.

(** X12.  [releaseResources] leaves the prepared state first and calls
    [release] then: however it ends, the node is not prepared afterwards,
    the sample rate and the block size are kept, and a further
    [releaseResources] returns at once without another call of
    [node_release]. *)
Theorem releaseResources_unprepares (n n' : LuaNode.t) :
  ends_in LuaNode.releaseResources n n' ->
  LuaNode.prepared n' = false /\
  LuaNode.sampleRate n' = LuaNode.sampleRate n /\
  LuaNode.blockSize n' = LuaNode.blockSize n /\
  LuaNode.releaseResources n' = Normal tt n'.
Proof.
  intros H.
  assert (Hp : LuaNode.prepared n' = false /\
               LuaNode.sampleRate n' = LuaNode.sampleRate n /\
               LuaNode.blockSize n' = LuaNode.blockSize n).
  { destruct H as [[a H]|[what H]]; revert H;
      unfold LuaNode.releaseResources, LuaNode.on_active, LuaNode.deref;
      run; destruct (LuaNode.prepared n) eqn:Hp; cbn [negb].
    - cbn [LuaNode.context LuaNode.set_prepared].
      destruct (LuaNode.context n) as [c|]; [|discriminate].
      destruct (Context.release c) as [[] c'|w c'|]; try discriminate.
      inversion 1; subst; cbn; auto.
    - inversion 1; subst; auto.
    - cbn [LuaNode.context LuaNode.set_prepared].
      destruct (LuaNode.context n) as [c|]; [|discriminate].
      destruct (Context.release c) as [[] c'|w c'|]; try discriminate.
      inversion 1; subst; cbn; auto.
    - discriminate. }
  destruct Hp as (Hp & Hr & Hb). repeat split; auto.
  unfold LuaNode.releaseResources. run. now rewrite Hp.
Qed.

(** X13.  [LuaNode::render] touches nothing but the interpreter state of
    the active Context: no exception leaves it, and when it returns, the
    script texts, the ports, [prepared], the sample rate and the block size
    are as before and the active Context has its render entry point and its
    loaded flag as before. *)
Theorem render_touches_interpreter_only
        (audio : AudioSampleBuffer) (midi : MidiPipe) (n : LuaNode.t) :
  (forall what n', LuaNode.render audio midi n <> Throws what n') /\
  (forall bufs n',
      LuaNode.render audio midi n = Normal bufs n' ->
      LuaNode.script n' = LuaNode.script n /\
      LuaNode.draftScript n' = LuaNode.draftScript n /\
      LuaNode.ports n' = LuaNode.ports n /\
      LuaNode.prepared n' = LuaNode.prepared n /\
      LuaNode.sampleRate n' = LuaNode.sampleRate n /\
      LuaNode.blockSize n' = LuaNode.blockSize n /\
      exists c c', LuaNode.context n = Some c /\ LuaNode.context n' = Some c' /\
                   Context.renderf c' = Context.renderf c /\
                   Context.renderstdf c' = Context.renderstdf c /\
                   Context.loaded c' = Context.loaded c).
Proof.
  unfold LuaNode.render, LuaNode.on_active, LuaNode.deref.
  destruct (LuaNode.context n) as [c|] eqn:Hc; [|split; intros; discriminate].
  assert (Hctx : forall bufs c', Context.render audio midi c = Normal bufs c' ->
                 Context.renderf c' = Context.renderf c /\
                 Context.renderstdf c' = Context.renderstdf c /\
                 Context.loaded c' = Context.loaded c).
  { intros bufs c'. unfold Context.render, Context.in_state. run.
    destruct (Context.loaded c) eqn:Hl; [|intros [= _ <-]; auto].
    destruct (Context.renderstdf c) as [f|] eqn:Hf; [|discriminate].
    destruct (call_render f audio midi (Context.state c)); [|discriminate].
    intros [= _ <-]. cbn. auto. }
  assert (Hno : forall what c', Context.render audio midi c <> Throws what c').
  { apply render_unguarded_no_throw. }
  split.
  - intros what n'. specialize (Hno what).
    destruct (Context.render audio midi c); try discriminate.
    intros [= -> <-]. eapply Hno. reflexivity.
  - intros bufs n'. specialize (Hctx bufs).
    destruct (Context.render audio midi c) as [b c'| |]; try discriminate.
    intros [= <- <-]. cbn. repeat split; auto.
    exists c, c'. split; [reflexivity|]. split; [reflexivity|].
    apply Hctx. reflexivity.
Qed.

(** ** [addIOPorts] and [addParameters] *)

Lemma io_loop_closed_form (ty : kv.PortType) (input : bool) (slug nm : string)
      (count : nat) :
  forall i index channel ports,
    Context.io_loop count ty input slug nm i index channel ports
    = (index + Z.of_nat count,
       ports ++ map (fun k => kv.mkPort ty (index + Z.of_nat k) (channel + Z.of_nat k)
                                        (append_int slug (i + Z.of_nat k + 1))
                                        (append_int nm (i + Z.of_nat k + 1)) input)
                    (seq 0 count)).
Proof.
  induction count as [|count IH]; intros i index channel ports.
  - cbn. now rewrite Z.add_0_r, app_nil_r.
  - cbn [Context.io_loop]. rewrite IH. unfold kv.add.
    rewrite <- app_assoc. cbn [app seq map]. rewrite <- seq_shift, map_map.
    rewrite !Z.add_0_r. f_equal; [lia|]. f_equal. f_equal.
    apply map_ext. intros k.
    replace (index + 1 + Z.of_nat k) with (index + Z.of_nat (S k)) by lia.
    replace (channel + 1 + Z.of_nat k) with (channel + Z.of_nat (S k)) by lia.
    replace (i + 1 + Z.of_nat k + 1) with (i + Z.of_nat (S k) + 1) by lia.
    reflexivity.
Qed.

(** X14.  The ports [addIOPorts] makes of the four counts, whatever the
    counts: after the ports the list held, the audio inputs [in_1], [in_2],
    ... named "In 1", "In 2", ..., then the audio outputs [out_k] "Out k",
    the MIDI inputs [midi_in_k] "MIDI In k" and the MIDI outputs
    [midi_out_k] "MIDI Out k"; the index counts through the four groups
    from 0 and the channel through each group from 0.  A count that is
    zero or negative gives no port. *)
Theorem add_io_ports_closed_form (audioIns audioOuts midiIns midiOuts : Z)
        (ports : kv.PortList) :
  let a := Z.to_nat audioIns in
  let b := Z.to_nat audioOuts in
  let m := Z.to_nat midiIns in
  let n := Z.to_nat midiOuts in
  Context.add_io_ports audioIns audioOuts midiIns midiOuts ports
  = ports ++
    port_group kv.Audio true "in_" "In " 0 a ++
    port_group kv.Audio false "out_" "Out " (Z.of_nat a) b ++
    port_group kv.Midi true "midi_in_" "MIDI In " (Z.of_nat (a + b)) m ++
    port_group kv.Midi false "midi_out_" "MIDI Out " (Z.of_nat (a + b + m)) n.
Proof.
  cbv zeta. unfold Context.add_io_ports, port_group.
  rewrite !io_loop_closed_form. rewrite <- !app_assoc.
  repeat (f_equal; try (apply map_ext; intros k; f_equal; lia)).
Qed.

(** The list [addIOPorts] makes of an empty list is well numbered and
    holds no Control port. *)
Lemma add_io_ports_numbered (audioIns audioOuts midiIns midiOuts : Z) :
  numbered (Context.add_io_ports audioIns audioOuts midiIns midiOuts []) /\
  forall input,
    count_group (kv.Control, input)
                (Context.add_io_ports audioIns audioOuts midiIns midiOuts []) = 0%nat.
Proof.
  unfold Context.add_io_ports.
  destruct (@io_loop_spec kv.Audio true "in_" "In " (Z.to_nat audioIns) 0 0 0 []
              numbered_nil eq_refl eq_refl) as (g1 & E1 & N1 & G1).
  cbn [app] in E1, N1. rewrite E1.
  assert (Habs : forall g (l : kv.PortList),
             ~ In g (map group l) -> 0 = Z.of_nat (count_group g l)).
  { intros g l H. unfold count_group.
    apply (count_occ_not_In group_eq_dec) in H. now rewrite H. }
  assert (Hin : forall (g g' : kv.PortType * bool) k, g <> g' -> ~ In g (repeat g' k)).
  { intros g g' k Hne H. apply repeat_spec in H. congruence. }
  destruct (@io_loop_spec kv.Audio false "out_" "Out " (Z.to_nat audioOuts) 0
              (Z.of_nat (List.length g1)) 0 g1 N1 eq_refl)
    as (g2 & E2 & N2 & G2).
  { apply Habs. rewrite G1. apply Hin. discriminate. }
  rewrite E2.
  destruct (@io_loop_spec kv.Midi true "midi_in_" "MIDI In " (Z.to_nat midiIns) 0
              (Z.of_nat (List.length (g1 ++ g2))) 0 (g1 ++ g2) N2 eq_refl)
    as (g3 & E3 & N3 & G3).
  { apply Habs. rewrite map_app, G1, G2. intros H.
    apply in_app_or in H as [H|H]; revert H; apply Hin; discriminate. }
  rewrite E3.
  destruct (@io_loop_spec kv.Midi false "midi_out_" "MIDI Out " (Z.to_nat midiOuts) 0
              (Z.of_nat (List.length ((g1 ++ g2) ++ g3))) 0
              ((g1 ++ g2) ++ g3) N3 eq_refl)
    as (g4 & E4 & N4 & G4).
  { apply Habs. rewrite !map_app, G1, G2, G3. intros H.
    apply in_app_or in H as [H|H]; [apply in_app_or in H as [H|H]|];
      revert H; apply Hin; discriminate. }
  rewrite E4. split; [exact N4|].
  intros input. apply Nat2Z.inj. symmetry. apply Habs.
  rewrite !map_app, G1, G2, G3, G4. intros H.
  apply in_app_or in H as [H|H];
    [apply in_app_or in H as [H|H]; [apply in_app_or in H as [H|H]|]|];
    revert H; apply Hin; discriminate.
Qed.

(** The loop of [addParameters] keeps a list well numbered, wherever an
    error ends it. *)
Lemma param_loop_numbered (params : object) (st : lua_State) (sz : nat) :
  forall i index inChan outChan ports,
    numbered ports ->
    index = Z.of_nat (List.length ports) ->
    inChan = Z.of_nat (count_group (kv.Control, true) ports) ->
    outChan = Z.of_nat (count_group (kv.Control, false) ports) ->
    numbered (Context.param_loop sz params st i index inChan outChan ports).
Proof.
  induction sz as [|sz IH]; intros i index inChan outChan ports Hn Hi Hin Hout.
  - exact Hn.
  - cbn [Context.param_loop].
    destruct (Context.read_param params i st) as [w|[[name sym] isInput]];
      [exact Hn|].
    unfold kv.add. apply IH.
    + apply numbered_snoc; auto. unfold group; cbn [kv.type kv.isInput kv.channel].
      destruct isInput; assumption.
    + rewrite length_app. cbn. lia.
    + rewrite count_group_snoc. unfold group; cbn [kv.type kv.isInput].
      destruct isInput; destruct (group_eq_dec _ _); try congruence; lia.
    + rewrite count_group_snoc. unfold group; cbn [kv.type kv.isInput].
      destruct isInput; destruct (group_eq_dec _ _); try congruence; lia.
Qed.

(** An exception leaves [Context::createPorts] before any port is added:
    it comes from the call of [node_io_ports]. *)
Lemma createPorts_throws_keeps_list (c c' : Context.t) (ports ports' : kv.PortList)
      (what : string) :
  Context.createPorts (c, ports) = Throws what (c', ports') -> ports' = ports.
Proof.
  unfold Context.createPorts, Context.addIOPorts, Context.addParameters,
    Context.on_context, Context.on_ports, Context.in_state.
  run. cases; try discriminate; intros [= _ _ <-]; reflexivity.
Qed.

(** X15.  Whatever the script, the list [createPorts] makes of an empty
    list is well numbered: the index of each port is its position in the
    list and its channel is its position among the ports of its type and
    direction, also when an error has cut the parameters short.  The list
    of a node is such a list after every [LuaNode::createPorts] that
    returns. *)
Theorem createPorts_always_numbered :
  (forall (c c' : Context.t) (ports : kv.PortList),
      Context.createPorts (c, []) = Normal tt (c', ports) -> numbered ports) /\
  (forall n n' : LuaNode.t,
      LuaNode.context n <> None ->
      LuaNode.createPorts n = Normal tt n' -> numbered (LuaNode.ports n')).
Proof.
  assert (Hctx : forall (c c' : Context.t) (ports : kv.PortList),
             Context.createPorts (c, []) = Normal tt (c', ports) -> numbered ports).
  { intros c c' ports.
    assert (Hpar : forall (c1 : Context.t) ps s',
               numbered ps ->
               (forall input, count_group (kv.Control, input) ps = 0%nat) ->
               Context.addParameters (c1, ps) = Normal tt s' -> numbered (snd s')).
    { intros c1 ps s' Hn Hc.
      unfold Context.addParameters, Context.on_context, Context.on_ports,
        Context.in_state.
      run. cases; try discriminate; intros [= <-]; cbn [snd]; auto.
      apply param_loop_numbered; auto.
      - now rewrite Hc.
      - now rewrite Hc. }
    unfold Context.createPorts. run. cbn [fst snd].
    destruct (negb (Context.ready c)); [intros [= _ <-]; apply numbered_nil|].
    destruct (Context.addIOPorts (c, [])) as [[] [c1 ps]|w s1|] eqn:Hio;
      try discriminate.
    intros H. apply (Hpar c1 ps (c', ports)); auto; revert Hio;
      unfold Context.addIOPorts, Context.on_context, Context.on_ports,
        Context.in_state;
      run; cases; try discriminate; intros [= _ <-];
      try apply numbered_nil; try reflexivity;
      apply add_io_ports_numbered. }
  split; [exact Hctx|].
  intros n n' Hc. unfold LuaNode.createPorts, kv.clearQuick. run.
  destruct (LuaNode.context n) as [c|]; [|congruence].
  match goal with |- context [Context.createPorts ?x] =>
    destruct (Context.createPorts x) as [[] [c' ps']|w [c' ps']|] eqn:E end;
    try discriminate.
  intros [= <-]. cbn. exact (Hctx _ _ _ E).
Qed.

(** X16.  An error raised by [node_params] is swallowed: [createPorts]
    returns, and the list holds the audio and MIDI ports of the script and
    no Control port. *)
Theorem node_params_error_is_swallowed
        (c : Context.t) (counts : Z * Z * Z * Z) (st1 st2 : lua_State)
        (what : string) (ports : kv.PortList) :
  Context.ready c = true ->
  io_declared (Context.state c) counts st1 ->
  valid (sol_global "node_params" st1) = true ->
  call (sol_global "node_params" st1) st1 = Raised what st2 ->
  Context.createPorts (c, ports)
  = Normal tt (Context.set_state st2 c, declared_ports counts [] ports).
Proof.
  intros Hr Hio Hv Hcall.
  unfold Context.createPorts, Context.addIOPorts, Context.addParameters,
    Context.on_context, Context.on_ports, Context.in_state.
  run. cbn [fst snd]. rewrite Hr. cbn [negb].
  destruct c as [st rf rsf nm ld].
  cbn [fst snd Context.state Context.set_state] in *.
  unfold declared_ports. cbn [control_ports].
  inversion Hio as [Hv0|t st' Hv0 Hcall0]; subst.
  - rewrite Hv0. cbn [fst snd Context.state Context.set_state].
    rewrite Hv. cbn [fst snd Context.state Context.set_state].
    rewrite Hcall. reflexivity.
  - rewrite Hv0. cbn [fst snd Context.state Context.set_state].
    rewrite Hcall0. cbn [fst snd Context.state Context.set_state].
    destruct (Context.read_io_counts t st1) as [[[a b] m] n].
    cbn [fst snd Context.state Context.set_state].
    rewrite Hv. cbn [fst snd Context.state Context.set_state].
    rewrite Hcall. reflexivity.
Qed.

(** X17.  An error in the middle of the parameters cuts the list short
    and is swallowed: when the first [k] entries of the table of
    [node_params] are read and the read of the next one raises an error,
    [createPorts] returns, with the audio and MIDI ports and the Control
    ports of these [k] entries. *)
Theorem params_error_truncates
        (c : Context.t) (counts : Z * Z * Z * Z) (st1 st2 : lua_State)
        (params : object) (sz : nat) (decls : list (string * string * bool))
        (what : string) (ports : kv.PortList) :
  Context.ready c = true ->
  io_declared (Context.state c) counts st1 ->
  valid (sol_global "node_params" st1) = true ->
  call (sol_global "node_params" st1) st1 = Returned params st2 ->
  table_size params st2 = inr sz ->
  (List.length decls < sz)%nat ->
  (forall k d, nth_error decls k = Some d ->
               Context.read_param params (Z.of_nat k) st2 = inr d) ->
  Context.read_param params (Z.of_nat (List.length decls)) st2 = inl what ->
  Context.createPorts (c, ports)
  = Normal tt (Context.set_state st2 c, declared_ports counts decls ports).
Proof.
  intros Hr Hio Hv Hcall Hsize Hlt Hread Hfail.
  assert (Hloop : forall rest i index inChan outChan ps,
             (forall k d, nth_error decls k = Some d ->
                          Context.read_param params (i + Z.of_nat k) st2 = inr d) ->
             Context.read_param params (i + Z.of_nat (List.length decls)) st2
             = inl what ->
             Context.param_loop (List.length decls + S rest) params st2
                                i index inChan outChan ps
             = control_ports decls index inChan outChan ps).
  { intros rest. clear Hread Hfail Hlt.
    induction decls as [|[[name sym] isInput] more IH];
      intros i index inChan outChan ps Hread Hfail.
    - cbn in *. rewrite Z.add_0_r in Hfail. now rewrite Hfail.
    - cbn [List.length Nat.add Context.param_loop control_ports].
      pose proof (Hread O _ eq_refl) as H0. cbn in H0. rewrite Z.add_0_r in H0.
      rewrite H0. apply IH.
      + intros k d Hk.
        replace (i + 1 + Z.of_nat k) with (i + Z.of_nat (S k)) by lia.
        apply Hread. exact Hk.
      + replace (i + 1 + Z.of_nat (List.length more))
          with (i + Z.of_nat (List.length ((name, sym, isInput) :: more)))
          by (cbn [List.length]; lia).
        exact Hfail. }
  unfold Context.createPorts, Context.addIOPorts, Context.addParameters,
    Context.on_context, Context.on_ports, Context.in_state.
  run. cbn [fst snd]. rewrite Hr. cbn [negb].
  destruct c as [st rf rsf nm ld].
  cbn [fst snd Context.state Context.set_state] in *.
  unfold declared_ports.
  replace sz with (List.length decls + S (sz - S (List.length decls)))%nat in Hsize
    by lia.
  inversion Hio as [Hv0|t st' Hv0 Hcall0]; subst.
  - rewrite Hv0. cbn [fst snd Context.state Context.set_state].
    rewrite Hv. cbn [fst snd Context.state Context.set_state].
    rewrite Hcall. cbn [fst snd Context.state Context.set_state].
    rewrite Hsize. cbn [fst snd]. rewrite Hloop; [reflexivity| |].
    + intros k d Hk. rewrite Z.add_0_l. now apply Hread.
    + rewrite Z.add_0_l. exact Hfail.
  - rewrite Hv0. cbn [fst snd Context.state Context.set_state].
    rewrite Hcall0. cbn [fst snd Context.state Context.set_state].
    destruct (Context.read_io_counts t st1) as [[[a b] m] n].
    cbn [fst snd Context.state Context.set_state].
    rewrite Hv. cbn [fst snd Context.state Context.set_state].
    rewrite Hcall. cbn [fst snd Context.state Context.set_state].
    rewrite Hsize. cbn [fst snd]. rewrite Hloop; [reflexivity| |].
    + intros k d Hk. rewrite Z.add_0_l. now apply Hread.
    + rewrite Z.add_0_l. exact Hfail.
Qed.

(** X18.  When an exception leaves [LuaNode::createPorts] (an error of
    [node_io_ports]), the list of the node has been cleared and nothing has
    been added to it: the node is left with no ports; its script texts are
    as before. *)
Theorem createPorts_error_leaves_no_ports (n n' : LuaNode.t) (what : string) :
  LuaNode.createPorts n = Throws what n' ->
  LuaNode.ports n' = [] /\
  LuaNode.script n' = LuaNode.script n /\
  LuaNode.draftScript n' = LuaNode.draftScript n /\
  LuaNode.prepared n' = LuaNode.prepared n.
Proof.
  unfold LuaNode.createPorts, kv.clearQuick. run.
  destruct (LuaNode.context n) as [c|]; [|discriminate].
  match goal with |- context [Context.createPorts ?x] =>
    destruct (Context.createPorts x) as [[] [c' ps']|w [c' ps']|] eqn:E end;
    try discriminate.
  apply createPorts_throws_keeps_list in E. subst ps'.
  intros [= _ <-]. cbn. auto.
Qed.

(** ** [getState], [setState] and the constructor *)

(** The result of [validate] does not depend on the state of its caller. *)
Lemma validate_anywhere {S T} (text : string) (r : Result) (s : S) (t : T) :
  Context.validate text s = Normal r s -> Context.validate text t = Normal r t.
Proof.
  unfold Context.validate. destruct (isEmpty text); [now intros [= <-]|].
  unfold with_local.
  match goal with |- context [match ?m Context.new with _ => _ end] =>
    destruct (m Context.new) end; try discriminate.
  now intros [= <-].
Qed.

(** [loadScript] of a text that [validate] accepts and [load] loads does
    not return a failure. *)
Lemma loadScript_of_valid_text (text what : string) (n n' : LuaNode.t)
      (c1 : Context.t) :
  Context.validate text n = Normal ok n ->
  Context.load text Context.new = Normal ok c1 ->
  LuaNode.loadScript text n <> Normal (fail what) n'.
Proof.
  intros Hv Hload. unfold LuaNode.loadScript. unfold bind at 1. rewrite Hv.
  cbn [failed].
  unfold LuaNode.with_newContext, LuaNode.on_newContext, LuaNode.deref,
    LuaNode.on_node, LuaNode.swap.
  run. cbn [fst snd]. rewrite Hload. cbn [wasOk failed negb].
  cases; discriminate.
Qed.

(** X19.  [getState] and [setState] round-trip the committed script.  For
    a node [a] whose script was installed by [loadScript] and a blob that
    holds the tree [getState] writes for [a], a [setState] on any node [b]
    that returns leaves [b] with the script of [a] as its script and as its
    draft, and has sent one change message. *)
Theorem getState_setState_round_trip
        (text : string) (a0 a b b' : LuaNode.t) (data : MemoryData) :
  LuaNode.loadScript text a0 = Normal ok a ->
  readFromData data = Some (LuaNode.getState a) ->
  LuaNode.setState data b = Normal tt b' ->
  LuaNode.script b' = LuaNode.script a /\
  LuaNode.draftScript b' = LuaNode.script a /\
  LuaNode.changeMessages b' = S (LuaNode.changeMessages b).
Proof.
  intros Ha Hdata Hset.
  pose proof (loadScript_ok_validated _ _ Ha) as Hv.
  pose proof (loadScript_ok_members _ _ Ha) as (_ & _ & _ & _ & Hs & Hd).
  pose proof (loadScript_ok_inv _ _ Ha) as (c1 & _ & Hload & _).
  revert Hset. unfold LuaNode.setState. rewrite Hdata.
  unfold LuaNode.getState. rewrite Hs, Hd.
  cbn [LuaNode.property String.eqb Ascii.eqb Bool.eqb].
  unfold bind.
  destruct (LuaNode.loadScript text b) as [r b1|w b1|] eqn:Hb; try discriminate.
  destruct r as [|what].
  - pose proof (loadScript_ok_members _ _ Hb) as (_ & _ & _ & Hm & Hs' & Hd').
    intros [= <-]. cbn. rewrite Hs', Hd', Hm. auto.
  - exfalso. eapply loadScript_of_valid_text; [|exact Hload|exact Hb].
    eapply validate_anywhere. exact Hv.
Qed.

Lemma property_missing (state : list (string * string)) (k : string) :
  (forall v, ~ In (k, v) state) -> LuaNode.property state k = "".
Proof.
  induction state as [|[k' v'] rest IH]; intros H; [reflexivity|].
  cbn [LuaNode.property]. destruct (String.eqb k' k) eqn:E.
  - apply String.eqb_eq in E. subst k'. exfalso. apply (H v'). now left.
  - apply IH. intros v Hin. apply (H v). now right.
Qed.

(** X20.  A valid tree without a "script" property is read as the empty
    script: [setState] leaves the script texts, the active Context and the
    ports of the node as they were, and still sends a change message. *)
Theorem setState_without_script_keeps_node
        (data : MemoryData) (state : list (string * string)) (n : LuaNode.t) :
  readFromData data = Some state ->
  (forall v, ~ In ("script", v) state) ->
  exists n',
    LuaNode.setState data n = Normal tt n' /\
    LuaNode.script n' = LuaNode.script n /\
    LuaNode.draftScript n' = LuaNode.draftScript n /\
    LuaNode.context n' = LuaNode.context n /\
    LuaNode.ports n' = LuaNode.ports n /\
    LuaNode.changeMessages n' = S (LuaNode.changeMessages n).
Proof.
  intros Hdata Hmiss. unfold LuaNode.setState. rewrite Hdata.
  rewrite (@property_missing state "script" Hmiss).
  eexists. split; [reflexivity|]. cbn. auto.
Qed.

(** [prepare] changes the interpreter state only. *)
Lemma prepare_keeps_loaded (rate : double) (block : Z) (c c' : Context.t) :
  Context.prepare rate block c = Normal tt c' ->
  Context.loaded c' = Context.loaded c.
Proof.
  unfold Context.prepare, Context.in_state. run.
  cases; try discriminate; intros [= <-]; reflexivity.
Qed.

(** X21.  [LuaNode::LuaNode()] never leaves the node without a Context.
    When the constructor returns, either the built-in script is installed
    (it is the script and the draft, and the active Context is ready), or
    its [loadScript] failed and the node holds the new, empty Context, which
    is not ready, with the script text the members started with. *)
Theorem construct_installs_context (members n : LuaNode.t) :
  LuaNode.construct members = Normal tt n ->
  exists c,
    LuaNode.context n = Some c /\
    ((Context.ready c = true /\
      LuaNode.script n = defaultScript /\ LuaNode.draftScript n = defaultScript) \/
     (c = Context.new /\ Context.ready c = false /\
      LuaNode.script n = LuaNode.script members)).
Proof.
  unfold LuaNode.construct. run.
  destruct (LuaNode.loadScript defaultScript
              (LuaNode.set_context (Some Context.new) members))
    as [r n1|w n1|] eqn:H; try discriminate.
  intros [= <-]. destruct r as [|what].
  - pose proof (loadScript_ok_inv _ _ H) as (c1 & c2 & Hload & Hprep & ->).
    exists c2. split; [reflexivity|]. left. repeat split.
    assert (Hl : Context.loaded c1 = true).
    { destruct (@load_returns _ defaultScript Context.new eq_refl) as [c' E].
      rewrite E in Hload. injection Hload as Hr <-.
      destruct (Context.loaded c'); [reflexivity|discriminate]. }
    unfold Context.ready.
    destruct (LuaNode.prepared (LuaNode.set_context (Some Context.new) members)).
    + now rewrite (prepare_keeps_loaded _ _ _ Hprep).
    + now injection Hprep as <-.
  - apply loadScript_failed_keeps_node in H. subst n1.
    exists Context.new. split; [reflexivity|]. right. repeat split.
Qed.

(** X22.  No function of the node empties the slot of the active
    Context: on a node that holds a Context, however [loadScript],
    [createPorts], [prepareToRender], [releaseResources], [render] or
    [setState] ends, the node holds a Context afterwards. *)
Theorem context_never_null (n n' : LuaNode.t) :
  LuaNode.context n <> None ->
  (forall text, ends_in (LuaNode.loadScript text) n n' -> LuaNode.context n' <> None) /\
  (ends_in LuaNode.createPorts n n' -> LuaNode.context n' <> None) /\
  (forall rate block,
      ends_in (LuaNode.prepareToRender rate block) n n' -> LuaNode.context n' <> None) /\
  (ends_in LuaNode.releaseResources n n' -> LuaNode.context n' <> None) /\
  (forall audio midi,
      ends_in (LuaNode.render audio midi) n n' -> LuaNode.context n' <> None) /\
  (forall data, ends_in (LuaNode.setState data) n n' -> LuaNode.context n' <> None).
Proof.
  intros Hc.
  assert (Hload : forall text n1, ends_in (LuaNode.loadScript text) n n1 ->
                                  LuaNode.context n1 <> None).
  { intros text n1 H. pose proof (loadScript_shape text n) as Hs.
    destruct H as [[r H]|[what H]]; rewrite H in Hs.
    - destruct Hs as [[_ ->]|[_ [c2 ->]]]; [exact Hc|discriminate].
    - destruct Hs as [->|[->|[c2 ->]]]; [exact Hc|exact Hc|discriminate]. }
  assert (Hderef : forall A (m : M Context.t A),
             ends_in (LuaNode.on_active m) n n' -> LuaNode.context n' <> None).
  { intros A m [[a H]|[what H]]; revert H; unfold LuaNode.on_active, LuaNode.deref;
      (destruct (LuaNode.context n) as [c|]; [|discriminate]);
      destruct (m c); try discriminate; inversion 1; subst; discriminate. }
  split; [intros text; apply Hload|].
  split.
  { intros [[a H]|[what H]]; revert H; unfold LuaNode.createPorts; run;
      (destruct (LuaNode.context n) as [c|]; [|congruence]);
      match goal with |- context [Context.createPorts ?x] =>
        destruct (Context.createPorts x) as [[] [c' ps']|w [c' ps']|] end;
      try discriminate; inversion 1; subst; discriminate. }
  split.
  { intros rate block [[a H]|[what H]]; revert H;
      unfold LuaNode.prepareToRender, LuaNode.on_active, LuaNode.deref; run;
      destruct (LuaNode.prepared n); try discriminate;
      try (inversion 1; subst; exact Hc);
      cbn [LuaNode.context LuaNode.set_rate_block LuaNode.sampleRate LuaNode.blockSize];
      (destruct (LuaNode.context n) as [c|]; [|discriminate]);
      destruct (Context.prepare rate block c) as [[] c'|w c'|]; try discriminate;
      inversion 1; subst; discriminate. }
  split.
  { intros [[a H]|[what H]]; revert H;
      unfold LuaNode.releaseResources, LuaNode.on_active, LuaNode.deref; run;
      destruct (LuaNode.prepared n); cbn [negb]; try discriminate;
      try (inversion 1; subst; exact Hc);
      cbn [LuaNode.context LuaNode.set_prepared];
      (destruct (LuaNode.context n) as [c|]; [|discriminate]);
      destruct (Context.release c) as [[] c'|w c'|]; try discriminate;
      inversion 1; subst; discriminate. }
  split; [intros audio midi; apply Hderef|].
  intros data [[a H]|[what H]]; revert H; unfold LuaNode.setState;
    destruct (readFromData data) as [state|];
    try (unfold ret; inversion 1; subst; exact Hc); try discriminate;
    unfold bind;
    destruct (LuaNode.loadScript (LuaNode.property state "script") n)
      as [r n1|w n1|] eqn:E; try discriminate.
  - inversion 1; subst. cbn.
    apply (Hload (LuaNode.property state "script") n1). left. now exists r.
  - inversion 1; subst.
    apply (Hload (LuaNode.property state "script") n'). right. now exists what.
Qed.

End Coverage.

(* ================================================================== *)
(** * Properties of the registry of plugin windows *)

Section Registry.

Import PluginWindow.

Ltac run :=
  unfold bind, ret, get, modify in *.

Lemma find_store_same {A} (a : address) (x : A) (l : list (address * A)) :
  find a (store a x l) = Some x.
Proof.
  induction l as [|[a' y] rest IH]; cbn.
  - now rewrite Nat.eqb_refl.
  - destruct (Nat.eqb a' a) eqn:E; cbn.
    + now rewrite Nat.eqb_refl.
    + now rewrite E.
Qed.

Lemma find_store_other {A} (a b : address) (x : A) (l : list (address * A)) :
  a <> b -> find b (store a x l) = find b l.
Proof.
  intros Hab. induction l as [|[a' y] rest IH]; cbn.
  - apply Nat.eqb_neq in Hab. now rewrite Hab.
  - destruct (Nat.eqb a' a) eqn:E; cbn.
    + apply Nat.eqb_eq in E. subst a'. apply Nat.eqb_neq in Hab. now rewrite Hab.
    + destruct (Nat.eqb a' b); [reflexivity|exact IH].
Qed.

Lemma find_erase_same {A} (a : address) (l : list (address * A)) :
  find a (erase a l) = None.
Proof.
  induction l as [|[a' y] rest IH]; cbn; [reflexivity|].
  destruct (Nat.eqb a' a) eqn:E; cbn; [exact IH|]. now rewrite E.
Qed.

Lemma find_erase_other {A} (a b : address) (l : list (address * A)) :
  a <> b -> find b (erase a l) = find b l.
Proof.
  intros Hab. induction l as [|[a' y] rest IH]; cbn; [reflexivity|].
  destruct (Nat.eqb a' a) eqn:E; cbn.
  - apply Nat.eqb_eq in E. subst a'. apply Nat.eqb_neq in Hab. now rewrite Hab.
  - destruct (Nat.eqb a' b); [reflexivity|exact IH].
Qed.

Lemma remove_last (a : address) (l : list address) :
  ~ In a l -> removeFirstMatchingValue a (l ++ [a]) = l.
Proof.
  induction l as [|b rest IH]; cbn; intros H.
  - now rewrite Nat.eqb_refl.
  - destruct (Nat.eqb b a) eqn:E.
    + apply Nat.eqb_eq in E. subst b. exfalso. apply H. now left.
    + rewrite IH; [reflexivity|]. intros Hin. apply H. now right.
Qed.

Lemma remove_middle (a : address) (l1 l2 : list address) :
  ~ In a l1 -> removeFirstMatchingValue a (l1 ++ a :: l2) = l1 ++ l2.
Proof.
  induction l1 as [|b rest IH]; cbn; intros H.
  - now rewrite Nat.eqb_refl.
  - destruct (Nat.eqb b a) eqn:E.
    + apply Nat.eqb_eq in E. subst b. exfalso. apply H. now left.
    + rewrite IH; [reflexivity|]. intros Hin. apply H. now right.
Qed.

Lemma remove_spec (a : address) (l : list address) :
  NoDup l ->
  NoDup (removeFirstMatchingValue a l) /\
  (forall b, In b (removeFirstMatchingValue a l) <-> In b l /\ b <> a).
Proof.
  induction 1 as [|b rest Hb Hnd [IH1 IH2]]; cbn.
  - split; [constructor|]. intros b. tauto.
  - destruct (Nat.eqb_spec b a) as [->|Hne].
    + split; [exact Hnd|]. intros c. split.
      * intros Hc. split; [now right|]. intros ->. contradiction.
      * intros [[->|Hc] Hca]; [contradiction|exact Hc].
    + split.
      * constructor; [|exact IH1]. rewrite IH2. tauto.
      * intros c. cbn. rewrite IH2. split.
        -- intros [->|[Hc Hca]]; [split; [now left|exact Hne]|split; [now right|exact Hca]].
        -- intros [[->|Hc] Hca]; [now left|right; tauto].
Qed.

Lemma NoDup_snoc (a : address) (l : list address) :
  NoDup l -> ~ In a l -> NoDup (l ++ [a]).
Proof.
  induction 1 as [|b rest Hb Hnd IH]; cbn; intros Ha.
  - constructor; [intros []|constructor].
  - constructor.
    + rewrite in_app_iff. cbn. intros [Hin|[->|[]]]; [contradiction|].
      apply Ha. now left.
    + apply IH. intros Hin. apply Ha. now right.
Qed.

Lemma NoDup_snoc_inv (a : address) (l : list address) :
  NoDup (l ++ [a]) -> NoDup l /\ ~ In a l.
Proof.
  induction l as [|b rest IH]; cbn; intros H.
  - split; [constructor|intros []].
  - inversion H as [|? ? Hb Hnd]; subst. destruct (IH Hnd) as [H1 H2]. split.
    + constructor; [|exact H1]. intros Hin. apply Hb. rewrite in_app_iff. now left.
    + intros [->|Hin]; [|contradiction]. apply Hb. rewrite in_app_iff. right. now left.
Qed.

Lemma NoDup_middle (a : address) (l1 l2 : list address) :
  NoDup (l1 ++ a :: l2) -> ~ In a l1.
Proof.
  induction l1 as [|b rest IH]; cbn; intros H; [intros []|].
  inversion H as [|? ? Hb Hnd]; subst. intros [->|Hin].
  - apply Hb. rewrite in_app_iff. right. now left.
  - exact (IH Hnd Hin).
Qed.

Lemma nth_error_middle (a : address) (l1 l2 : list address) :
  nth_error (l1 ++ a :: l2) (List.length l1) = Some a.
Proof.
  induction l1 as [|b rest IH]; cbn; [reflexivity|exact IH].
Qed.

Lemma same_node_refl (o : option address) : same_node o o = true.
Proof.
  destruct o as [a|]; cbn; [apply Nat.eqb_refl|reflexivity].
Qed.

(** [getWindowFor] only reads. *)
Lemma find_loop_reads (i : nat) (node : option address) (d d' : Desktop)
      (r : option address) :
  find_loop i node d = Normal r d' -> d' = d.
Proof.
  induction i as [|j IH]; cbn; run.
  - now intros [= _ <-].
  - unfold getUnchecked, owner_of.
    destruct (nth_error (activePluginWindows d) j) as [w|]; [|discriminate].
    destruct (find w (windows d)) as [o|]; [|discriminate].
    destruct (same_node o node); [now intros [= _ <-]|exact IH].
Qed.

(** The window registered last is the one [getWindowFor] finds for its
    owner. *)
Lemma getWindowFor_last (d : Desktop) (l : list address) (w : address)
      (node : option address) :
  activePluginWindows d = (l ++ [w])%list ->
  find w (windows d) = Some node ->
  getWindowFor node d = Normal (Some w) d.
Proof.
  intros Hl Hw. unfold getWindowFor. run. rewrite Hl.
  rewrite length_app, Nat.add_comm. cbn. run. unfold getUnchecked, owner_of.
  rewrite Hl, nth_error_middle, Hw, same_node_refl. reflexivity.
Qed.

Lemma construct_runs (this a : address) (nd : GraphNode) (d : Desktop) :
  find a (nodes d) = Some nd ->
  construct this true (Some a) d = Normal tt (constructed this a nd d).
Proof.
  intros H. unfold construct, set_windowVisible, update_node, node_at. cbn. run.
  cbn [nodes windows activePluginWindows]. rewrite H.
  cbn [nodes windows activePluginWindows]. rewrite H. reflexivity.
Qed.

Lemma constructed_registry_ok (this a : address) (nd : GraphNode) (d : Desktop) :
  registry_ok d ->
  find this (windows d) = None ->
  find a (nodes d) = Some nd ->
  registry_ok (constructed this a nd d).
Proof.
  intros [[Hnd Hin] Hown] Hfresh Ha. unfold constructed. split; [split|]; cbn.
  - apply NoDup_snoc; [exact Hnd|]. rewrite Hin. now rewrite Hfresh.
  - intros w. rewrite in_app_iff. cbn. destruct (Nat.eq_dec this w) as [->|Hne].
    + rewrite find_store_same. split; [discriminate|intros _; right; now left].
    + rewrite (find_store_other _ _ Hne), <- Hin. tauto.
  - intros w o. cbn. destruct (Nat.eq_dec this w) as [->|Hne].
    + rewrite find_store_same. intros [= <-]. exists a. eexists. split; [reflexivity|].
      apply find_store_same.
    + rewrite (find_store_other _ _ Hne). intros Hw.
      destruct (Hown w o Hw) as (b & ndb & -> & Hb). exists b.
      destruct (Nat.eq_dec a b) as [->|Hab].
      * eexists. split; [reflexivity|]. apply find_store_same.
      * exists ndb. split; [reflexivity|]. now rewrite (find_store_other _ _ Hab).
Qed.

(** X23.  Opening a window on a live node, at an address no window has:
    the constructor returns, puts the window at the end of the array, keeps
    the registry sound, sets the node's "windowVisible" to true, and from
    then on [getWindowFor] of that node gives this window. *)
Theorem construct_registers (this a : address) (nd : GraphNode) (d : Desktop) :
  registry_ok d ->
  find this (windows d) = None ->
  find a (nodes d) = Some nd ->
  exists d',
    construct this true (Some a) d = Normal tt d' /\
    activePluginWindows d' = (activePluginWindows d ++ [this])%list /\
    registry_ok d' /\
    (exists nd', find a (nodes d') = Some nd' /\ windowVisible nd' = Some true) /\
    getWindowFor (Some a) d' = Normal (Some this) d'.
Proof.
  intros Hok Hfresh Ha. exists (constructed this a nd d).
  split; [now apply construct_runs|]. split; [reflexivity|].
  split; [now apply constructed_registry_ok|]. split.
  - eexists. split; [apply find_store_same|reflexivity].
  - apply getWindowFor_last with (l := activePluginWindows d); [reflexivity|].
    apply find_store_same.
Qed.

(** X24.  [getOrCreateWindowFor] gives one window per node: whatever the
    first call returned, window found or window made, a second call for
    the same node returns that window and changes nothing. *)
Theorem getOrCreateWindowFor_again (node : option address) (f1 f2 w : address)
        (d d1 : Desktop) :
  getOrCreateWindowFor node f1 d = Normal (Some w) d1 ->
  getOrCreateWindowFor node f2 d1 = Normal (Some w) d1.
Proof.
  unfold getOrCreateWindowFor. run.
  destruct (getWindowFor node d) as [r d0| |] eqn:Hget; try discriminate.
  assert (d0 = d) as -> by (unfold getWindowFor in Hget; run;
                            exact (find_loop_reads _ _ _ Hget)).
  destruct r as [w0|].
  - intros [= -> <-]. rewrite Hget. reflexivity.
  - unfold createWindowFor, node_at. run. destruct node as [a|]; [|discriminate].
    destruct (find a (nodes d)) as [nd|] eqn:Ha; [|discriminate].
    destruct (plugin nd) as [plug|]; [|discriminate].
    destruct (hasEditor plug); cbn [negb]; [|discriminate].
    destruct (createsEditor plug); [|discriminate].
    rewrite (@construct_runs f1 a nd d Ha). intros [= <- <-].
    rewrite (@getWindowFor_last (constructed f1 a nd d) (activePluginWindows d) f1 (Some a));
      [reflexivity|reflexivity|apply find_store_same].
Qed.

Lemma closeAll_loop_spec (nds : list (address * GraphNode)) (l : list address) :
  forall ws,
    NoDup l ->
    (forall w, In w l -> find w ws <> None) ->
    exists ws',
      closeAll_loop (List.length l) (mkDesktop nds ws l)
      = Normal tt (mkDesktop nds ws' []) /\
      (forall w, In w l -> find w ws' = None) /\
      (forall w, ~ In w l -> find w ws' = find w ws).
Proof.
  induction l as [|x l' IH] using rev_ind; intros ws Hnd Hlive.
  - exists ws. cbn. run. split; [reflexivity|]. split; [intros w []|reflexivity].
  - destruct (@NoDup_snoc_inv x l' Hnd) as [Hnd' Hx].
    rewrite length_app, Nat.add_comm. cbn. run. unfold getUnchecked, destroy. cbn.
    rewrite nth_error_middle. cbn [nodes windows activePluginWindows].
    destruct (find x ws) as [o|] eqn:Hfx;
      [|exfalso; apply (Hlive x); [rewrite in_app_iff; right; now left|exact Hfx]].
    rewrite (@remove_last x l' Hx).
    destruct (IH (erase x ws) Hnd') as (ws' & Hrun & Hin & Hout).
    + intros w Hw. rewrite find_erase_other.
      * apply Hlive. rewrite in_app_iff. now left.
      * intros ->. contradiction.
    + exists ws'. split; [exact Hrun|]. split.
      * intros w. rewrite in_app_iff. cbn. intros Hw.
        destruct (in_dec Nat.eq_dec w l') as [Hl|Hl]; [now apply Hin|].
        destruct Hw as [Hw|[<-|[]]]; [contradiction|].
        rewrite (Hout _ Hl). apply find_erase_same.
      * intros w Hw. rewrite in_app_iff in Hw. cbn in Hw.
        rewrite Hout by tauto. apply find_erase_other. intros ->. tauto.
Qed.

(** X25.  On a sound registry [closeAllCurrentlyOpenWindows] returns and
    leaves no window: the array is empty and no window object is left
    alive.  The nodes are as they were, "windowVisible" included. *)
Theorem closeAll_leaves_no_window (d : Desktop) :
  registered d ->
  exists d',
    closeAllCurrentlyOpenWindows d = Normal tt d' /\
    activePluginWindows d' = [] /\
    (forall w, find w (windows d') = None) /\
    nodes d' = nodes d.
Proof.
  intros [Hnd Hin]. unfold closeAllCurrentlyOpenWindows. run.
  destruct d as [nds ws l]. cbn [nodes windows activePluginWindows] in *.
  destruct (@closeAll_loop_spec nds l ws Hnd) as (ws' & Hrun & Hdead & Hout).
  { intros w Hw. now apply Hin. }
  exists (mkDesktop nds ws' []). split.
  - destruct l as [|x l']; [exact Hrun|]. change (Nat.ltb 0 (List.length (x :: l'))) with true.
    exact Hrun.
  - split; [reflexivity|]. split; [|reflexivity]. intros w. cbn.
    destruct (in_dec Nat.eq_dec w l) as [Hl|Hl]; [now apply Hdead|].
    rewrite (Hout _ Hl). destruct (find w ws) eqn:Hw; [|reflexivity].
    exfalso. apply Hl, Hin. now rewrite Hw.
Qed.

Lemma close_loop_spec (id : N) (d : Desktop) (l : list address) :
  registry_ok d ->
  forall l2,
    activePluginWindows d = (l ++ l2)%list ->
    (forall w, In w l2 -> owner_id d w <> Some id) ->
    exists d',
      close_loop (List.length l) id d = Normal tt d' /\
      ((d' = d /\ forall w, In w (activePluginWindows d) -> owner_id d w <> Some id)
       \/
       (exists l1 w l3,
          activePluginWindows d = (l1 ++ w :: l3)%list /\
          owner_id d w = Some id /\
          (forall w', In w' l3 -> owner_id d w' <> Some id) /\
          d' = mkDesktop (nodes d) (erase w (windows d)) (l1 ++ l3)%list)).
Proof.
  intros [[Hnd Hin] Hown].
  induction l as [|x l' IH] using rev_ind; intros l2 Hl Hno.
  - exists d. cbn. run. split; [reflexivity|]. left. split; [reflexivity|].
    intros w. rewrite Hl. apply Hno.
  - rewrite <- app_assoc in Hl. cbn in Hl.
    assert (nth_error (activePluginWindows d) (List.length l') = Some x) as Hnth
      by (rewrite Hl; apply nth_error_middle).
    assert (In x (activePluginWindows d)) as Hx
      by (rewrite Hl, in_app_iff; right; now left).
    rewrite length_app, Nat.add_comm. cbn. run. unfold getUnchecked, owner_of, node_at.
    rewrite Hnth.
    destruct (find x (windows d)) as [o|] eqn:Hfx; [|now apply Hin in Hx].
    destruct (Hown x o Hfx) as (a & nd & -> & Ha). rewrite Ha.
    destruct (N.eqb_spec (nodeId nd) id) as [Hid|Hid].
    + unfold destroy. rewrite Hfx.
      eexists. split; [reflexivity|]. right. exists l', x, l2.
      split; [exact Hl|]. split; [|split; [exact Hno|]].
      * unfold owner_id. rewrite Hfx, Ha. now rewrite Hid.
      * f_equal. rewrite Hl. apply remove_middle.
        apply NoDup_middle with (l2 := l2). now rewrite <- Hl.
    + apply (IH (x :: l2) Hl). intros w [<-|Hw]; [|now apply Hno].
      unfold owner_id. rewrite Hfx, Ha. intros [= E]. contradiction.
Qed.

(** X26.  [closeCurrentlyOpenWindowsFor (nodeId)] closes at most one
    window.  On a sound registry it returns; if no registered window
    belongs to a node of that id nothing changes; otherwise exactly the
    window registered last for that id is deleted and taken out of the
    array, while earlier windows of the same id stay open, and the nodes,
    "windowVisible" included, are as they were. *)
Theorem closeCurrentlyOpenWindowsFor_closes_last (id : N) (d : Desktop) :
  registry_ok d ->
  exists d',
    closeCurrentlyOpenWindowsFor_id id d = Normal tt d' /\
    ((d' = d /\ forall w, In w (activePluginWindows d) -> owner_id d w <> Some id)
     \/
     (exists l1 w l3,
        activePluginWindows d = (l1 ++ w :: l3)%list /\
        owner_id d w = Some id /\
        (forall w', In w' l3 -> owner_id d w' <> Some id) /\
        d' = mkDesktop (nodes d) (erase w (windows d)) (l1 ++ l3)%list)).
Proof.
  intros Hok. unfold closeCurrentlyOpenWindowsFor_id. run.
  apply (@close_loop_spec id d (activePluginWindows d) Hok []).
  - now rewrite app_nil_r.
  - intros w [].
Qed.

(** X27.  The close button: on a sound registry, for a registered window,
    [closeButtonPressed] returns, sets the owner's "windowVisible" to
    false, deletes the window and leaves the array sound without it. *)
Theorem closeButtonPressed_unregisters (this : address) (d : Desktop) :
  registry_ok d ->
  In this (activePluginWindows d) ->
  exists a nd' d',
    find this (windows d) = Some (Some a) /\
    closeButtonPressed this d = Normal tt d' /\
    find a (nodes d') = Some nd' /\ windowVisible nd' = Some false /\
    ~ In this (activePluginWindows d') /\
    find this (windows d') = None /\
    registered d'.
Proof.
  intros [[Hnd Hin] Hown] Hthis.
  destruct (find this (windows d)) as [o|] eqn:Hf; [|now apply Hin in Hthis].
  destruct (Hown this o Hf) as (a & nd & -> & Ha).
  destruct (@remove_spec this (activePluginWindows d) Hnd) as [Hnd' Hin'].
  exists a. eexists. eexists. split; [reflexivity|].
  unfold closeButtonPressed, owner_of, set_windowVisible, update_node, node_at, destroy.
  run. rewrite Hf, Ha. cbn. rewrite Hf. split; [reflexivity|]. cbn.
  split; [apply find_store_same|]. split; [reflexivity|].
  split; [rewrite Hin'; tauto|]. split; [apply find_erase_same|].
  split; [exact Hnd'|]. cbn. intros w. rewrite Hin'.
  destruct (Nat.eq_dec this w) as [<-|Hne].
  - rewrite find_erase_same. tauto.
  - rewrite (find_erase_other _ Hne), Hin. split; [tauto|]. intros H. split; [exact H|].
    intros ->. now apply Hne.
Qed.

Lemma remove_present (a : address) (l t : list address) :
  In a l ->
  removeFirstMatchingValue a (l ++ t) = (removeFirstMatchingValue a l ++ t)%list /\
  List.length l = S (List.length (removeFirstMatchingValue a l)).
Proof.
  induction l as [|b rest IH]; cbn; [intros []|]. intros H.
  destruct (Nat.eqb_spec b a) as [->|Hne]; [split; reflexivity|].
  destruct H as [->|H]; [contradiction|]. destruct (IH H) as [E1 E2].
  cbn. now rewrite E1, E2.
Qed.

Lemma closeAll_loop_twice (nds : list (address * GraphNode)) (l : list address) :
  forall ws,
    (forall w, In w l -> find w ws <> None) ->
    ~ NoDup l ->
    closeAll_loop (List.length l) (mkDesktop nds ws l) = Crash.
Proof.
  induction l as [|x l' IH] using rev_ind; intros ws Hlive Hdup.
  - exfalso. apply Hdup. constructor.
  - rewrite length_app, Nat.add_comm. cbn. run. unfold getUnchecked, destroy. cbn.
    rewrite nth_error_middle. cbn [nodes windows activePluginWindows].
    destruct (find x ws) as [o|] eqn:Hfx;
      [|exfalso; apply (Hlive x); [rewrite in_app_iff; right; now left|exact Hfx]].
    destruct (in_dec Nat.eq_dec x l') as [Hx|Hx].
    + destruct (@remove_present x l' [x] Hx) as [-> ->]. cbn. run.
      unfold getUnchecked. cbn. rewrite nth_error_middle. unfold destroy.
      cbn [nodes windows activePluginWindows]. now rewrite find_erase_same.
    + rewrite (@remove_last x l' Hx). apply IH.
      * intros w Hw. rewrite find_erase_other.
        -- apply Hlive. rewrite in_app_iff. now left.
        -- intros ->. contradiction.
      * intros Hnd. apply Hdup. now apply NoDup_snoc.
Qed.

(** X28.  The array must name a window once: when it names live windows
    only but one of them twice, [closeAllCurrentlyOpenWindows] deletes
    that window a second time. *)
Theorem closeAll_deletes_twice (d : Desktop) :
  (forall w, In w (activePluginWindows d) -> find w (windows d) <> None) ->
  ~ NoDup (activePluginWindows d) ->
  closeAllCurrentlyOpenWindows d = Crash.
Proof.
  intros Hlive Hdup. unfold closeAllCurrentlyOpenWindows. run.
  destruct d as [nds ws l]. cbn [nodes windows activePluginWindows] in *.
  destruct l as [|x l']; [exfalso; apply Hdup; constructor|].
  change (Nat.ltb 0 (List.length (x :: l'))) with true. cbv iota.
  now apply closeAll_loop_twice.
Qed.

Lemma same_node_spec (o node : option address) :
  same_node o node = true <-> o = node.
Proof.
  destruct o as [a|], node as [b|]; cbn; try (split; [discriminate|discriminate]).
  - rewrite Nat.eqb_eq. split; [now intros ->|now intros [= ->]].
  - tauto.
Qed.

Lemma find_loop_spec (node : option address) (d : Desktop) (l : list address) :
  (forall w, In w (activePluginWindows d) -> find w (windows d) <> None) ->
  forall l2,
    activePluginWindows d = (l ++ l2)%list ->
    (forall w, In w l2 -> find w (windows d) <> Some node) ->
    exists r,
      find_loop (List.length l) node d = Normal r d /\
      ((r = None /\
        forall w, In w (activePluginWindows d) -> find w (windows d) <> Some node)
       \/
       (exists l1 w l3,
          activePluginWindows d = (l1 ++ w :: l3)%list /\
          r = Some w /\
          find w (windows d) = Some node /\
          forall w', In w' l3 -> find w' (windows d) <> Some node)).
Proof.
  intros Hlive.
  induction l as [|x l' IH] using rev_ind; intros l2 Hl Hno.
  - exists None. cbn. run. split; [reflexivity|]. left. split; [reflexivity|].
    intros w. rewrite Hl. apply Hno.
  - rewrite <- app_assoc in Hl. cbn in Hl.
    assert (nth_error (activePluginWindows d) (List.length l') = Some x) as Hnth
      by (rewrite Hl; apply nth_error_middle).
    assert (In x (activePluginWindows d)) as Hx
      by (rewrite Hl, in_app_iff; right; now left).
    rewrite length_app, Nat.add_comm. cbn. run. unfold getUnchecked, owner_of.
    rewrite Hnth.
    destruct (find x (windows d)) as [o|] eqn:Hfx; [|now apply Hlive in Hx].
    destruct (same_node o node) eqn:Hsame.
    + apply same_node_spec in Hsame. subst o.
      exists (Some x). split; [reflexivity|]. right. exists l', x, l2.
      split; [exact Hl|]. split; [reflexivity|]. split; [exact Hfx|exact Hno].
    + apply (IH (x :: l2) Hl). intros w [<-|Hw]; [|now apply Hno].
      rewrite Hfx. intros [= ->]. now rewrite same_node_refl in Hsame.
Qed.

(** X29.  [getWindowFor] only reads, and answers with the window
    registered last for that very node object: when the array names live
    windows only, it returns the null pointer if no registered window has
    [node] as its owner, and otherwise the one closest to the end of the
    array, whatever windows of the same owner stand before it. *)
Theorem getWindowFor_finds_last (node : option address) (d : Desktop) :
  (forall w, In w (activePluginWindows d) -> find w (windows d) <> None) ->
  exists r,
    getWindowFor node d = Normal r d /\
    ((r = None /\
      forall w, In w (activePluginWindows d) -> find w (windows d) <> Some node)
     \/
     (exists l1 w l3,
        activePluginWindows d = (l1 ++ w :: l3)%list /\
        r = Some w /\
        find w (windows d) = Some node /\
        forall w', In w' l3 -> find w' (windows d) <> Some node)).
Proof.
  intros Hlive. unfold getWindowFor. run.
  apply (@find_loop_spec node d (activePluginWindows d) Hlive []).
  - now rewrite app_nil_r.
  - intros w [].
Qed.

Lemma no_windows_ok : registry_ok no_windows.
Proof.
  split; [split|]; cbn.
  - constructor.
  - intros w. cbn. tauto.
  - intros w o. cbn. discriminate.
Qed.

Lemma three_windows_ok : registry_ok three_windows.
Proof.
  split; [split|]; cbn -[Nat.eqb].
  - repeat constructor; cbn; intuition discriminate.
  - intros w. split.
    + intros [<-|[<-|[<-|[]]]]; cbn; discriminate.
    + destruct (Nat.eqb_spec 10 w); [tauto|]. destruct (Nat.eqb_spec 11 w); [tauto|].
      destruct (Nat.eqb_spec 12 w); [tauto|]. intros H. exfalso. now apply H.
  - intros w o. cbn -[Nat.eqb].
    destruct (Nat.eqb 10 w); [intros [= <-]; exists 1%nat, synth; now split|].
    destruct (Nat.eqb 11 w); [intros [= <-]; exists 2%nat, reverb; now split|].
    destruct (Nat.eqb 12 w); [intros [= <-]; exists 1%nat, synth; now split|].
    discriminate.
Qed.

End Registry.

(* ================================================================== *)
(** * The statements on concrete scripts *)

#[local] Existing Instance Demo.runtime.

Lemma loadScript_all_or_nothing_witness :
  LuaNode.loadScript Demo.render_raises Demo.node
  = Normal (fail "boom") Demo.node /\
  (LuaNode.script Demo.node = LuaNode.script Demo.node /\
   LuaNode.draftScript Demo.node = LuaNode.draftScript Demo.node /\
   LuaNode.context Demo.node = LuaNode.context Demo.node /\
   forall audio midi,
     LuaNode.render audio midi Demo.node = LuaNode.render audio midi Demo.node).
Proof.
  split.
  - reflexivity.
  - apply (@loadScript_all_or_nothing Demo.runtime Demo.render_raises "boom").
    reflexivity.
Defined.

(** C2 fails on the code.  A Context that has loaded a script whose
    [node_render] raises an error is ready; its [render] does not return:
    the error reaches the [noexcept] boundary. *)
Lemma render_error_not_swallowed :
  Context.ready (Demo.loaded_context Demo.render_raises) = true /\
  @Context.render Demo.runtime (2, 1024) [] (Demo.loaded_context Demo.render_raises) = Crash /\
  ~ (exists bufs c',
        @Context.render Demo.runtime (2, 1024) [] (Demo.loaded_context Demo.render_raises)
        = Normal bufs c').
Proof.
  assert (E : @Context.render Demo.runtime (2, 1024) []
                 (Demo.loaded_context Demo.render_raises) = Crash)
    by reflexivity.
  split; [reflexivity|]. split; [exact E|].
  intros (bufs & c' & H). rewrite E in H. discriminate H.
Qed.

Lemma render_unguarded_witness :
  @Context.render Demo.runtime (2, 1024) [] (Demo.loaded_context defaultScript)
  = Normal ((2, 1024), []) (Demo.loaded_context defaultScript).
Proof.
  rewrite (proj2 (proj2 (@render_unguarded Demo.runtime (2, 1024) []
                           (Demo.loaded_context defaultScript)))
                 (Demo.VFunction "node_render") eq_refl eq_refl).
  reflexivity.
Defined.

(** C3 fails on the code.  The chunk [local x = 1] runs without error and
    defines no [node_render]; [load] succeeds and the Context is ready, with
    a nil [renderf]. *)
Lemma ready_without_render_entry :
  sol_script Demo.no_functions new_state = Returned true new_state /\
  exists c,
    Context.load Demo.no_functions Context.new = Normal ok c /\
    Context.ready c = true /\
    valid (sol_global "node_render" (Context.state c)) = false /\
    valid (Context.renderf c) = false.
Proof.
  split; [reflexivity|].
  exists (Demo.loaded_context Demo.no_functions). repeat split.
Qed.

Lemma ready_iff_script_ran_witness :
  Context.loaded (@Context.new Demo.runtime) = false /\
  Context.load Demo.no_functions Context.new
  = Normal ok (Demo.loaded_context Demo.no_functions) /\
  (ok = ok /\
   Context.renderf (Demo.loaded_context Demo.no_functions)
   = sol_global "node_render" (Context.state (Demo.loaded_context Demo.no_functions)) /\
   Context.renderstdf (Demo.loaded_context Demo.no_functions)
   = Some (Context.renderf (Demo.loaded_context Demo.no_functions))).
Proof.
  split; [reflexivity|]. split; [reflexivity|].
  apply (proj2 (@ready_iff_script_ran Demo.runtime Demo.no_functions Context.new
                  (Demo.loaded_context Demo.no_functions) ok
                  eq_refl eq_refl)).
  reflexivity.
Defined.

Lemma createPorts_layout_witness :
  exists c' ports,
    Context.createPorts (Demo.loaded_context defaultScript, []) = Normal tt (c', ports) /\
    List.length ports = (2 + 2 + 1 + 1 + 1)%nat /\
    map group ports
    = repeat (kv.Audio, true) 2 ++ repeat (kv.Audio, false) 2 ++
      repeat (kv.Midi, true) 1 ++ repeat (kv.Midi, false) 1 ++
      map (fun d => (kv.Control, snd d)) [("Volume", "volume", true)] /\
    numbered ports.
Proof.
  apply (@createPorts_layout Demo.runtime (Demo.loaded_context defaultScript)
           2 2 1 1 [("Volume", "volume", true)]
           (Context.state (Demo.loaded_context defaultScript))
           (Context.state (Demo.loaded_context defaultScript))).
  - reflexivity.
  - refine (@io_present Demo.runtime _ Demo.default_io_ports _ _ _);
      reflexivity.
  - refine (@params_present Demo.runtime _ Demo.default_params _ _ _ _ _ _).
    + reflexivity.
    + reflexivity.
    + reflexivity.
    + intros [|[|k]] d H; try discriminate H.
      injection H as <-. reflexivity.
Defined.



(** What the hot swap of [needs_prepare] does on that node: [loadScript]
    succeeds, the Context it installs has kept the block size that
    [node_prepare] was given, and [render] returns on it; on the Context
    as [load] leaves it, [render] ends the process. *)
Lemma needs_prepare_hot_swap :
  @LuaNode.loadScript Stateful.runtime Stateful.needs_prepare
                      Stateful.prepared_node
  = Normal ok Stateful.swapped_node /\
  (exists c, LuaNode.context Stateful.swapped_node = Some c /\
             Demo.local_n (Context.state c) = 512 /\
             Demo.local_n
               (Context.state (Stateful.loaded_context Stateful.needs_prepare))
             = 0) /\
  (exists n', @LuaNode.render Stateful.runtime (2, 512) [] Stateful.swapped_node
              = Normal ((2, 512), []) n') /\
  @LuaNode.render Stateful.runtime (2, 512) [] Stateful.unprepared_node = Crash.
Proof.
  split; [vm_compute; reflexivity|]. split; [|split].
  - eexists. split; [reflexivity|]. split; reflexivity.
  - eexists. reflexivity.
  - reflexivity.
Qed.

(** A Context of [needs_prepare] that is prepared with blocks of 512
    frames has kept that size. *)
Lemma prepared_needs_prepare_keeps_block (rate : double)
      (c : @Context.t Stateful.runtime) :
  @prepared_with Stateful.runtime rate 512 c ->
  Demo.globals (Context.state c)
  = Demo.globals (Context.state (Stateful.loaded_context Stateful.needs_prepare)) ->
  Demo.local_n (Context.state c) = 512.
Proof.
  induction 1 as [c st' Hr Hran|c c' audio midi bufs Hprep IH Hrender].
  - cbn [Context.state Context.set_state]. intros Hg.
    destruct Hran as [(Hv & st1 & Hcall & ->)|(Hv & ->)].
    + cbn in Hcall, Hg |- *. unfold Demo.global, Demo.call_with in Hcall.
      destruct (Demo.lookup "node_prepare" (Demo.globals (Context.state c)))
        as [body|] eqn:Hbody; [|discriminate].
      cbn in Hcall. rewrite Hbody in Hcall.
      destruct (body (Demo.local_n (Context.state c)) (Demo.PrepareArgs rate 512))
        as [[what|v] n'] eqn:Hb; cbn in Hcall; [discriminate|].
      injection Hcall as <-. cbn in Hg |- *. rewrite Hg in Hbody.
      cbn in Hbody. injection Hbody as <-. cbn in Hb. now injection Hb as _ <-.
    + cbn in Hv, Hg. unfold Demo.global in Hv. rewrite Hg in Hv. discriminate.
  - intros Hg. unfold Context.render, Context.in_state in Hrender.
    unfold noexcept, bind, get, ret, zoom, lua in Hrender.
    destruct (Context.loaded c); [|injection Hrender as _ <-; now apply IH].
    destruct (Context.renderstdf c) as [f|]; [|discriminate].
    cbn in Hrender. unfold Demo.call_with in Hrender.
    destruct f as [| | | | |name]; try discriminate.
    destruct (Demo.lookup name (Demo.globals (Context.state c)))
      as [body|] eqn:Hbody; [|discriminate].
    destruct (body (Demo.local_n (Context.state c)) Demo.RenderArgs)
      as [[what|v] n'] eqn:Hb; cbn in Hrender; [discriminate|].
    injection Hrender as _ <-. cbn in Hg |- *.
    specialize (IH Hg). rewrite Hg in Hbody. rewrite IH in Hb.
    cbn -[String.eqb] in Hbody.
    destruct (String.eqb "node_prepare" name).
    + injection Hbody as <-. now injection Hb as _ <-.
    + destruct (String.eqb "node_render" name); [|discriminate].
      injection Hbody as <-. cbn in Hb. now injection Hb as _ <-.
Qed.

(** The Context of [needs_prepare] as [load] leaves it is not a prepared
    one: had the swap come before the call of [prepare], the node would
    have stood in [Stateful.unprepared_node], where "node prepared implies
    active Context prepared" fails. *)
Lemma unprepared_node_breaks_invariant :
  ~ @prepared_invariant Stateful.runtime Stateful.unprepared_node.
Proof.
  intros H. destruct (H eq_refl) as (c & Hc & Hprep).
  injection Hc as <-. specialize (Hprep eq_refl).
  pose proof (prepared_needs_prepare_keeps_block Hprep eq_refl) as E.
  discriminate E.
Qed.

(** C6 fails on the code, for [node_io_ports].  The Context that
    [validate] makes for a script whose [node_io_ports] raises an error is
    ready, and its [createPorts] does not return: the error propagates. *)
Lemma io_ports_error_leaves_createPorts :
  Context.ready (Demo.loaded_context Demo.io_ports_raises) = true /\
  Context.createPorts (Demo.loaded_context Demo.io_ports_raises, [])
  = Throws "no ports" (Demo.loaded_context Demo.io_ports_raises, []).
Proof. split; reflexivity. Qed.

(** C7 fails as it is worded: the ports of the built-in script are seven,
    not six. *)
Lemma default_script_ports_are_not_six :
  exists c' ports,
    Context.createPorts (Demo.loaded_context defaultScript, []) = Normal tt (c', ports) /\
    symbols ports
    = ["in_1"; "in_2"; "out_1"; "out_2"; "midi_in_1"; "midi_out_1"; "volume"] /\
    List.length ports <> 6%nat.
Proof.
  exists (fst (Demo.derived (Demo.loaded_context defaultScript))),
         (snd (Demo.derived (Demo.loaded_context defaultScript))).
  split; [reflexivity|]. split; [reflexivity|].
  intros H. cbv in H. discriminate H.
Qed.

Lemma default_script_ports_witness :
  exists c' ports,
    Context.createPorts (Demo.loaded_context defaultScript, []) = Normal tt (c', ports) /\
    List.length ports = 7%nat /\
    symbols ports
    = ["in_1"; "in_2"; "out_1"; "out_2"; "midi_in_1"; "midi_out_1"; "volume"].
Proof.
  apply (@default_script_ports Demo.runtime (Demo.loaded_context defaultScript)
           (Context.state (Demo.loaded_context defaultScript))
           (Context.state (Demo.loaded_context defaultScript))).
  - reflexivity.
  - refine (@io_present Demo.runtime _ Demo.default_io_ports _ _ _);
      reflexivity.
  - refine (@params_present Demo.runtime _ Demo.default_params _ _ _ _ _ _).
    + reflexivity.
    + reflexivity.
    + reflexivity.
    + intros [|[|k]] d H; try discriminate H.
      injection H as <-. reflexivity.
Defined.

(** C9 fails on the code.  [loadScript] of the empty script of the blob
    fails, and [setState] sends the change message all the same. *)
Lemma setState_notifies_after_failure :
  LuaNode.loadScript (LuaNode.property [("script", ""); ("draft", "")] "script")
                     Demo.node
  = Normal (fail "script contains no code") Demo.node /\
  exists n',
    LuaNode.setState Demo.empty_script_blob Demo.node = Normal tt n' /\
    LuaNode.changeMessages n' = S (LuaNode.changeMessages Demo.node).
Proof.
  split; [reflexivity|].
  exists (Demo.after (LuaNode.setState Demo.empty_script_blob) Demo.node).
  split; reflexivity.
Qed.

Lemma setState_notifies_whatever_the_result_witness :
  exists n2,
    LuaNode.setState Demo.empty_script_blob Demo.node = Normal tt n2 /\
    LuaNode.changeMessages n2 = S (LuaNode.changeMessages Demo.node) /\
    LuaNode.context n2 = LuaNode.context Demo.node /\
    LuaNode.script n2 = LuaNode.script Demo.node.
Proof.
  apply (proj2 (@setState_notifies_whatever_the_result Demo.runtime
                  Demo.empty_script_blob Demo.node)
               [("script", ""); ("draft", "")]
               (fail "script contains no code") Demo.node);
    reflexivity.
Defined.

(** C10 fails on the code.  With the script [counting_ports] installed,
    the first [createPorts] leaves one port and the second one two. *)
Lemma createPorts_twice_differs :
  exists n1 n2,
    LuaNode.createPorts Demo.counting_node = Normal tt n1 /\
    LuaNode.createPorts n1 = Normal tt n2 /\
    symbols (LuaNode.ports n1) = ["in_1"] /\
    symbols (LuaNode.ports n2) = ["in_1"; "in_2"] /\
    LuaNode.ports n2 <> LuaNode.ports n1.
Proof.
  exists (Demo.after LuaNode.createPorts Demo.counting_node),
         (Demo.after LuaNode.createPorts
                     (Demo.after LuaNode.createPorts Demo.counting_node)).
  split; [reflexivity|]. split; [reflexivity|].
  split; [reflexivity|]. split; [reflexivity|].
  intros H. apply (f_equal (@List.length kv.Port)) in H. cbv in H.
  discriminate H.
Qed.

Lemma createPorts_from_scratch_witness :
  LuaNode.createPorts (Demo.after LuaNode.createPorts Demo.node)
  = Normal tt (Demo.after LuaNode.createPorts Demo.node).
Proof.
  apply (proj2 (@createPorts_from_scratch Demo.runtime Demo.node)).
  - reflexivity.
  - reflexivity.
Defined.

(* ================================================================== *)
(** * The further properties on concrete scripts *)

Lemma load_once_witness :
  Context.load Demo.no_functions (Demo.loaded_context defaultScript)
  = Normal (fail "Script already loaded") (Demo.loaded_context defaultScript).
Proof.
  apply (@load_once Demo.runtime defaultScript Demo.no_functions Context.new).
  reflexivity.
Defined.

Lemma failed_load_leaves_inert_context_witness :
  (forall rate block,
      Context.prepare rate block (Demo.loaded_context "this is not Lua")
      = Normal tt (Demo.loaded_context "this is not Lua")) /\
  Context.release (Demo.loaded_context "this is not Lua")
  = Normal tt (Demo.loaded_context "this is not Lua") /\
  (forall ports,
      Context.createPorts (Demo.loaded_context "this is not Lua", ports)
      = Normal tt (Demo.loaded_context "this is not Lua", ports)) /\
  (forall audio midi,
      Context.render audio midi (Demo.loaded_context "this is not Lua")
      = Normal (audio, midi) (Demo.loaded_context "this is not Lua")).
Proof.
  apply (@failed_load_leaves_inert_context Demo.runtime "this is not Lua"
           "Couldn't load Lua script").
  reflexivity.
Defined.

Lemma validate_reports_render_error_witness :
  Context.validate Demo.render_raises Demo.node = Normal (fail "boom") Demo.node /\
  LuaNode.loadScript Demo.render_raises Demo.node = Normal (fail "boom") Demo.node.
Proof.
  apply (@validate_reports_render_error Demo.runtime Demo.render_raises "boom"
           (Demo.loaded_context Demo.render_raises)
           (Demo.loaded_context Demo.render_raises)
           (Demo.loaded_context Demo.render_raises)
           (Demo.loaded_context Demo.render_raises) [] Demo.node);
    reflexivity.
Defined.

Lemma loadScript_leaves_ports_alone_witness :
  symbols (LuaNode.ports
             (Demo.after (LuaNode.loadScript Demo.counting_ports)
                         (Demo.after LuaNode.createPorts Demo.node)))
  = ["in_1"; "in_2"; "out_1"; "out_2"; "midi_in_1"; "midi_out_1"; "volume"].
Proof.
  rewrite (proj1 (@loadScript_leaves_ports_alone Demo.runtime Demo.counting_ports
                    (Demo.after LuaNode.createPorts Demo.node)
                    (Demo.after (LuaNode.loadScript Demo.counting_ports)
                                (Demo.after LuaNode.createPorts Demo.node))
                    (or_introl (ex_intro _ ok eq_refl)))).
  reflexivity.
Defined.

Lemma loadScript_prepare_error_after_commit_witness :
  exists n',
    @LuaNode.loadScript Scenarios.runtime Scenarios.rate_sensitive
                        Scenarios.prepared_node
    = Throws "rate" n' /\
    LuaNode.script n' = Scenarios.rate_sensitive /\
    LuaNode.draftScript n' = Scenarios.rate_sensitive /\
    LuaNode.context n' = LuaNode.context Scenarios.prepared_node.
Proof.
  apply (@loadScript_prepare_error_after_commit Scenarios.runtime
           Scenarios.rate_sensitive "rate" Scenarios.prepared_node
           (Scenarios.loaded_context Scenarios.rate_sensitive)
           (Scenarios.loaded_context Scenarios.rate_sensitive));
    reflexivity.
Defined.

Lemma loadScript_installs_validated_witness :
  Context.validate Demo.counting_ports Demo.node = Normal ok Demo.node /\
  LuaNode.script Demo.counting_node = Demo.counting_ports /\
  LuaNode.draftScript Demo.counting_node = Demo.counting_ports /\
  (LuaNode.prepared Demo.node = false ->
   exists c1, Context.load Demo.counting_ports Context.new = Normal ok c1 /\
              LuaNode.context Demo.counting_node = Some c1).
Proof.
  apply (@loadScript_installs_validated Demo.runtime Demo.counting_ports
           Demo.node Demo.counting_node).
  reflexivity.
Defined.

Lemma prepareToRender_once_witness :
  LuaNode.prepared Demo.prepared_node = true /\
  LuaNode.prepareToRender (96000 # 1) 64 Demo.prepared_node
  = Normal tt Demo.prepared_node /\
  LuaNode.sampleRate Demo.prepared_node = 48000 # 1.
Proof.
  destruct (@prepareToRender_once Demo.runtime (48000 # 1) 512 Demo.node
              Demo.prepared_node eq_refl) as (Hp & Hagain & Hfirst).
  split; [exact Hp|]. split; [apply Hagain|]. now apply Hfirst.
Defined.

Lemma prepareToRender_error_stays_unprepared_witness :
  LuaNode.prepared
    (LuaNode.set_rate_block (48000 # 1) 512 Scenarios.rate_node) = false /\
  @LuaNode.prepareToRender Scenarios.runtime (48000 # 1) 512 Scenarios.rate_node
  = Throws "rate" (LuaNode.set_rate_block (48000 # 1) 512 Scenarios.rate_node).
Proof.
  split; [|reflexivity].
  apply (@prepareToRender_error_stays_unprepared Scenarios.runtime
           (48000 # 1) 512 "rate" Scenarios.rate_node).
  reflexivity.
Defined.

Lemma releaseResources_unprepares_witness :
  LuaNode.prepared (Demo.after LuaNode.releaseResources Demo.prepared_node) = false /\
  LuaNode.sampleRate (Demo.after LuaNode.releaseResources Demo.prepared_node)
  = LuaNode.sampleRate Demo.prepared_node /\
  LuaNode.blockSize (Demo.after LuaNode.releaseResources Demo.prepared_node)
  = LuaNode.blockSize Demo.prepared_node /\
  LuaNode.releaseResources (Demo.after LuaNode.releaseResources Demo.prepared_node)
  = Normal tt (Demo.after LuaNode.releaseResources Demo.prepared_node).
Proof.
  apply (@releaseResources_unprepares Demo.runtime Demo.prepared_node).
  left. exists tt. reflexivity.
Defined.

Lemma node_params_error_is_swallowed_witness :
  @Context.createPorts Scenarios.runtime
     (Scenarios.loaded_context Scenarios.params_raise, [])
  = Normal tt (Scenarios.loaded_context Scenarios.params_raise,
               declared_ports (1, 1, 0, 0) [] []) /\
  symbols (declared_ports (1, 1, 0, 0) [] []) = ["in_1"; "out_1"].
Proof.
  split; [|reflexivity].
  apply (@node_params_error_is_swallowed Scenarios.runtime
           (Scenarios.loaded_context Scenarios.params_raise) (1, 1, 0, 0)
           (Context.state (Scenarios.loaded_context Scenarios.params_raise))
           (Context.state (Scenarios.loaded_context Scenarios.params_raise))
           "no params" []).
  - reflexivity.
  - refine (@io_present Scenarios.runtime _
              (Demo.VTable [] [("audio_ins", Demo.VInt 1); ("audio_outs", Demo.VInt 1)])
              _ _ _); reflexivity.
  - reflexivity.
  - reflexivity.
Defined.

Lemma params_error_truncates_witness :
  @Context.createPorts Strict.runtime
     (Strict.loaded_context Strict.broken_params, [])
  = Normal tt (Strict.loaded_context Strict.broken_params,
               declared_ports (1, 0, 0, 0) [("Gain", "gain", true)] []) /\
  symbols (declared_ports (1, 0, 0, 0) [("Gain", "gain", true)] [])
  = ["in_1"; "gain"].
Proof.
  split; [|reflexivity].
  apply (@params_error_truncates Strict.runtime
           (Strict.loaded_context Strict.broken_params) (1, 0, 0, 0)
           (Context.state (Strict.loaded_context Strict.broken_params))
           (Context.state (Strict.loaded_context Strict.broken_params))
           Strict.params_table 2 [("Gain", "gain", true)]
           "attempt to index a value that is not a table" []).
  - reflexivity.
  - refine (@io_present Strict.runtime _
              (Demo.VTable [] [("audio_ins", Demo.VInt 1)]) _ _ _); reflexivity.
  - reflexivity.
  - reflexivity.
  - reflexivity.
  - cbn. lia.
  - intros [|[|k]] d H; try discriminate H. injection H as <-. reflexivity.
  - reflexivity.
Defined.

Lemma createPorts_error_leaves_no_ports_witness :
  symbols (LuaNode.ports Scenarios.once_node) = ["in_1"] /\
  @LuaNode.createPorts Scenarios.runtime Scenarios.once_node
  = Throws "again" (Scenarios.thrown LuaNode.createPorts Scenarios.once_node) /\
  LuaNode.ports (Scenarios.thrown LuaNode.createPorts Scenarios.once_node) = [].
Proof.
  split; [reflexivity|]. split; [reflexivity|].
  apply (@createPorts_error_leaves_no_ports Scenarios.runtime
           Scenarios.once_node
           (Scenarios.thrown LuaNode.createPorts Scenarios.once_node) "again").
  reflexivity.
Defined.

Lemma getState_setState_round_trip_witness :
  LuaNode.script (Demo.after (LuaNode.setState Blobs.counting_blob) Demo.node)
  = LuaNode.script Demo.counting_node /\
  LuaNode.draftScript (Demo.after (LuaNode.setState Blobs.counting_blob) Demo.node)
  = LuaNode.script Demo.counting_node /\
  LuaNode.changeMessages (Demo.after (LuaNode.setState Blobs.counting_blob) Demo.node)
  = S (LuaNode.changeMessages Demo.node).
Proof.
  apply (@getState_setState_round_trip Demo.runtime Demo.counting_ports
           Demo.node Demo.counting_node Demo.node
           (Demo.after (LuaNode.setState Blobs.counting_blob) Demo.node)
           Blobs.counting_blob);
    reflexivity.
Defined.

Lemma setState_without_script_keeps_node_witness :
  exists n',
    LuaNode.setState Blobs.draft_only_blob Demo.node = Normal tt n' /\
    LuaNode.script n' = LuaNode.script Demo.node /\
    LuaNode.draftScript n' = LuaNode.draftScript Demo.node /\
    LuaNode.context n' = LuaNode.context Demo.node /\
    LuaNode.ports n' = LuaNode.ports Demo.node /\
    LuaNode.changeMessages n' = S (LuaNode.changeMessages Demo.node).
Proof.
  apply (@setState_without_script_keeps_node Demo.runtime
           Blobs.draft_only_blob [("draft", "x = 1")] Demo.node).
  - reflexivity.
  - intros v [H|[]]. discriminate H.
Defined.

Lemma construct_installs_context_witness :
  exists c,
    LuaNode.context Demo.node = Some c /\
    ((Context.ready c = true /\
      LuaNode.script Demo.node = defaultScript /\
      LuaNode.draftScript Demo.node = defaultScript) \/
     (c = Context.new /\ Context.ready c = false /\
      LuaNode.script Demo.node = LuaNode.script Demo.members)).
Proof.
  apply (@construct_installs_context Demo.runtime Demo.members Demo.node).
  reflexivity.
Defined.

Lemma context_never_null_witness :
  LuaNode.context (Demo.after LuaNode.createPorts Demo.node) <> None.
Proof.
  apply (proj1 (proj2 (@context_never_null Demo.runtime Demo.node
                         (Demo.after LuaNode.createPorts Demo.node)
                         ltac:(discriminate)))).
  left. exists tt. reflexivity.
Defined.

(* ================================================================== *)
(** * The properties of the registry on a concrete desktop *)

Lemma construct_registers_witness :
  PluginWindow.registry_ok PluginWindow.no_windows /\
  PluginWindow.find 10%nat (PluginWindow.windows PluginWindow.no_windows) = None /\
  PluginWindow.find 1%nat (PluginWindow.nodes PluginWindow.no_windows)
  = Some PluginWindow.synth /\
  exists d',
    PluginWindow.construct 10%nat true (Some 1%nat) PluginWindow.no_windows
    = Normal tt d' /\
    PluginWindow.activePluginWindows d'
    = (PluginWindow.activePluginWindows PluginWindow.no_windows ++ [10%nat])%list /\
    PluginWindow.registry_ok d' /\
    (exists nd', PluginWindow.find 1%nat (PluginWindow.nodes d') = Some nd' /\
                 PluginWindow.windowVisible nd' = Some true) /\
    PluginWindow.getWindowFor (Some 1%nat) d' = Normal (Some 10%nat) d'.
Proof.
  split; [exact no_windows_ok|]. split; [reflexivity|]. split; [reflexivity|].
  apply (@construct_registers 10%nat 1%nat PluginWindow.synth PluginWindow.no_windows);
    [exact no_windows_ok|reflexivity|reflexivity].
Defined.

Lemma getOrCreateWindowFor_again_witness :
  PluginWindow.getOrCreateWindowFor (Some 1%nat) 10%nat PluginWindow.no_windows
  = Normal (Some 10%nat)
           (PluginWindow.constructed 10%nat 1%nat PluginWindow.synth
                                     PluginWindow.no_windows) /\
  PluginWindow.getOrCreateWindowFor
    (Some 1%nat) 11%nat
    (PluginWindow.constructed 10%nat 1%nat PluginWindow.synth PluginWindow.no_windows)
  = Normal (Some 10%nat)
           (PluginWindow.constructed 10%nat 1%nat PluginWindow.synth
                                     PluginWindow.no_windows).
Proof.
  split; [reflexivity|].
  apply (@getOrCreateWindowFor_again (Some 1%nat) 10%nat 11%nat 10%nat
                                     PluginWindow.no_windows).
  reflexivity.
Defined.

Lemma closeAll_leaves_no_window_witness :
  PluginWindow.registered PluginWindow.three_windows /\
  exists d',
    PluginWindow.closeAllCurrentlyOpenWindows PluginWindow.three_windows
    = Normal tt d' /\
    PluginWindow.activePluginWindows d' = [] /\
    (forall w, PluginWindow.find w (PluginWindow.windows d') = None) /\
    PluginWindow.nodes d' = PluginWindow.nodes PluginWindow.three_windows.
Proof.
  split; [exact (proj1 three_windows_ok)|].
  apply (@closeAll_leaves_no_window PluginWindow.three_windows).
  exact (proj1 three_windows_ok).
Defined.

Lemma closeCurrentlyOpenWindowsFor_closes_last_witness :
  PluginWindow.registry_ok PluginWindow.three_windows /\
  exists d',
    PluginWindow.closeCurrentlyOpenWindowsFor_id 7%N PluginWindow.three_windows
    = Normal tt d' /\
    ((d' = PluginWindow.three_windows /\
      forall w, In w (PluginWindow.activePluginWindows PluginWindow.three_windows) ->
                PluginWindow.owner_id PluginWindow.three_windows w <> Some 7%N)
     \/
     (exists l1 w l3,
        PluginWindow.activePluginWindows PluginWindow.three_windows
        = (l1 ++ w :: l3)%list /\
        PluginWindow.owner_id PluginWindow.three_windows w = Some 7%N /\
        (forall w', In w' l3 ->
                    PluginWindow.owner_id PluginWindow.three_windows w' <> Some 7%N) /\
        d' = PluginWindow.mkDesktop
               (PluginWindow.nodes PluginWindow.three_windows)
               (PluginWindow.erase w (PluginWindow.windows PluginWindow.three_windows))
               (l1 ++ l3)%list)).
Proof.
  split; [exact three_windows_ok|].
  apply (@closeCurrentlyOpenWindowsFor_closes_last 7%N PluginWindow.three_windows).
  exact three_windows_ok.
Defined.

Lemma closeButtonPressed_unregisters_witness :
  PluginWindow.registry_ok PluginWindow.three_windows /\
  In 12%nat (PluginWindow.activePluginWindows PluginWindow.three_windows) /\
  exists a nd' d',
    PluginWindow.find 12%nat (PluginWindow.windows PluginWindow.three_windows)
    = Some (Some a) /\
    PluginWindow.closeButtonPressed 12%nat PluginWindow.three_windows
    = Normal tt d' /\
    PluginWindow.find a (PluginWindow.nodes d') = Some nd' /\
    PluginWindow.windowVisible nd' = Some false /\
    ~ In 12%nat (PluginWindow.activePluginWindows d') /\
    PluginWindow.find 12%nat (PluginWindow.windows d') = None /\
    PluginWindow.registered d'.
Proof.
  split; [exact three_windows_ok|].
  split; [right; right; left; reflexivity|].
  apply (@closeButtonPressed_unregisters 12%nat PluginWindow.three_windows).
  - exact three_windows_ok.
  - right; right; left; reflexivity.
Defined.

Lemma closeAll_deletes_twice_witness :
  (forall w, In w (PluginWindow.activePluginWindows PluginWindow.twice_registered) ->
             PluginWindow.find w (PluginWindow.windows PluginWindow.twice_registered)
             <> None) /\
  ~ NoDup (PluginWindow.activePluginWindows PluginWindow.twice_registered) /\
  PluginWindow.closeAllCurrentlyOpenWindows PluginWindow.twice_registered = Crash.
Proof.
  assert (forall w,
             In w (PluginWindow.activePluginWindows PluginWindow.twice_registered) ->
             PluginWindow.find w (PluginWindow.windows PluginWindow.twice_registered)
             <> None) as Hlive
    by (intros w [<-|[<-|[]]]; cbn; discriminate).
  assert (~ NoDup (PluginWindow.activePluginWindows PluginWindow.twice_registered))
    as Hdup
    by (intros H; inversion H as [|? ? Hin _]; apply Hin; left; reflexivity).
  split; [exact Hlive|]. split; [exact Hdup|].
  exact (@closeAll_deletes_twice PluginWindow.twice_registered Hlive Hdup).
Defined.

Lemma getWindowFor_finds_last_witness :
  (forall w, In w (PluginWindow.activePluginWindows PluginWindow.three_windows) ->
             PluginWindow.find w (PluginWindow.windows PluginWindow.three_windows)
             <> None) /\
  exists r,
    PluginWindow.getWindowFor (Some 1%nat) PluginWindow.three_windows
    = Normal r PluginWindow.three_windows /\
    ((r = None /\
      forall w, In w (PluginWindow.activePluginWindows PluginWindow.three_windows) ->
                PluginWindow.find w (PluginWindow.windows PluginWindow.three_windows)
                <> Some (Some 1%nat))
     \/
     (exists l1 w l3,
        PluginWindow.activePluginWindows PluginWindow.three_windows
        = (l1 ++ w :: l3)%list /\
        r = Some w /\
        PluginWindow.find w (PluginWindow.windows PluginWindow.three_windows)
        = Some (Some 1%nat) /\
        forall w', In w' l3 ->
                   PluginWindow.find w' (PluginWindow.windows PluginWindow.three_windows)
                   <> Some (Some 1%nat))).
Proof.
  assert (forall w,
             In w (PluginWindow.activePluginWindows PluginWindow.three_windows) ->
             PluginWindow.find w (PluginWindow.windows PluginWindow.three_windows)
             <> None) as Hlive
    by (intros w [<-|[<-|[<-|[]]]]; cbn; discriminate).
  split; [exact Hlive|].
  exact (@getWindowFor_finds_last (Some 1%nat) PluginWindow.three_windows Hlive).
Defined.
